(** * Verification of the transport-agnostic ping/pong demo

    Shallow embedding of the crates [ping-common] (the [Ping]/[Pong] wire
    types and the [PingActor] handler), [ping-http-server] (the WebSocket
    bridge [handle_socket]) and the peer-to-peer configuration of
    [ping-cli-server] and [ping-cli-client]. The JSON encoding is the one
    produced by [serde_json] with [#[derive(Serialize, Deserialize)]]. *)

From Stdlib Require Import ZArith String Ascii List Lia Permutation Sorted.
Import ListNotations.
Open Scope string_scope.
Open Scope bool_scope.
Open Scope Z_scope.
Set Warnings "-register-all".

(** ** Machine integers *)

Definition u64_max : Z := 2 ^ 64 - 1.

Definition is_u64 (z : Z) : bool := (0 <=? z) && (z <=? u64_max).

(** The build profile decides what [a += b] does on [u64] overflow:
    a debug build panics, a release build wraps around. *)
Inductive profile := Debug | Release.

(** [a += b] on [u64]; [None] is a panic ("attempt to add with overflow"). *)
Definition u64_add_assign (prof : profile) (a b : Z) : option Z :=
  match prof with
  | Debug => if a + b <=? u64_max then Some (a + b) else None
  | Release => Some ((a + b) mod 2 ^ 64)
  end.

(** ** ping-common: the wire types *)

Record Ping := mkPing { Ping_message : string; Ping_sequence : Z }.

Record Pong := mkPong {
  Pong_message : string;
  Pong_sequence : Z;
  Pong_total_pings : Z
}.

(** [PingActor { ping_count: u64 }] *)
Record PingActor := mkPingActor { ping_count : Z }.

(** [impl RemoteActor for PingActor] and [#[remote_message(..)]]. *)
Definition PingActor_REMOTE_ID : string := "ping_pong_app::PingActor".
Definition Ping_remote_message_id : string :=
  "a1b2c3d4-e5f6-7890-abcd-ef1234567890".

(** [impl Message<Ping> for PingActor]: [handle]. A panic is [None]. *)
Definition handle (prof : profile) (self : PingActor) (msg : Ping)
  : option (PingActor * Pong) :=
  match u64_add_assign prof (ping_count self) 1 with
  | None => None
  | Some c =>
      let self' := mkPingActor c in
      let pong := mkPong ("Pong! Responding to: " ++ Ping_message msg)
                         (Ping_sequence msg) (ping_count self') in
      Some (self', pong)
  end.

(** ** The actor behind an [ActorRef]

    A running actor holds its state; a handler panic stops it (kameo's
    default [on_panic]). [ask] on a stopped actor, or an [ask] whose
    handler panicked, returns an error. *)
Definition ActorCell := option PingActor.

Inductive AskResult := AskOk (p : Pong) | AskErr.

Definition ask (prof : profile) (cell : ActorCell) (msg : Ping)
  : ActorCell * AskResult :=
  match cell with
  | None => (None, AskErr)
  | Some a =>
      match handle prof a msg with
      | None => (None, AskErr)
      | Some (a', pong) => (Some a', AskOk pong)
      end
  end.

(** The transport that admitted a request; the actor never looks at it. *)
Inductive transport := WebSocketTransport | PeerToPeerTransport.

(** The actor's mailbox processed one message at a time, in order. Each
    message carries a tag [A] (its transport, or the client that sent it)
    which the actor ignores. *)
Fixpoint run_mailbox {A : Type} (prof : profile) (cell : ActorCell)
    (msgs : list (A * Ping)) : ActorCell * list AskResult :=
  match msgs with
  | [] => (cell, [])
  | (_, m) :: rest =>
      let (cell', r) := ask prof cell m in
      let (cell'', rs) := run_mailbox prof cell' rest in
      (cell'', r :: rs)
  end.

Definition reply_total (r : AskResult) : option Z :=
  match r with AskOk p => Some (Pong_total_pings p) | AskErr => None end.

Fixpoint totals (rs : list AskResult) : list Z :=
  match rs with
  | [] => []
  | AskOk p :: rs' => Pong_total_pings p :: totals rs'
  | AskErr :: rs' => totals rs'
  end.

(** The totals observed by the client [k], in processing order: the replies
    to the messages tagged [k]. *)
Fixpoint client_totals (k : nat) (msgs : list (nat * Ping)) (rs : list AskResult)
  : list Z :=
  match msgs, rs with
  | (a, _) :: msgs', AskOk p :: rs' =>
      if Nat.eqb a k then Pong_total_pings p :: client_totals k msgs' rs'
      else client_totals k msgs' rs'
  | _ :: msgs', AskErr :: rs' => client_totals k msgs' rs'
  | _, _ => []
  end.

(** ** JSON text, as read and written by [serde_json] *)

Definition dq : ascii := "034"%char.
Definition bslash : ascii := "092"%char.

Definition ascii_of_Z (z : Z) : ascii := ascii_of_nat (Z.to_nat z).
Definition Z_of_ascii (c : ascii) : Z := Z.of_nat (nat_of_ascii c).

(** [serde_json::ser::format_escaped_str]: the bytes [0x00..0x1F], the
    double quote and the backslash are escaped, control bytes without a short form as [\u00XX]
    with lower-case hex digits; every other byte is copied. *)
Definition hex_digit (n : Z) : ascii :=
  if n <? 10 then ascii_of_Z (48 + n) else ascii_of_Z (97 + n - 10).

Definition escape_char (c : ascii) : string :=
  let n := Z_of_ascii c in
  if Ascii.eqb c dq then String bslash (String dq EmptyString)
  else if Ascii.eqb c bslash then String bslash (String bslash EmptyString)
  else if n =? 8 then String bslash "b"
  else if n =? 9 then String bslash "t"
  else if n =? 10 then String bslash "n"
  else if n =? 12 then String bslash "f"
  else if n =? 13 then String bslash "r"
  else if n <? 32 then
    String bslash ("u00" ++ String (hex_digit (n / 16))
                                  (String (hex_digit (n mod 16)) EmptyString))
  else String c EmptyString.

Fixpoint escape_body (s : string) : string :=
  match s with
  | EmptyString => EmptyString
  | String c r => escape_char c ++ escape_body r
  end.

(** A JSON string literal: opening quote, escaped body, closing quote. *)
Definition json_string (s : string) : string :=
  String dq (escape_body s ++ String dq EmptyString).

(** Decimal digits of a [u64] ([itoa]), most significant first. Twenty
    digits suffice below [2^64]. *)
Fixpoint digits_aux (fuel : nat) (n : Z) (acc : list Z) : list Z :=
  match fuel with
  | O => n :: acc
  | S f => if n <? 10 then n :: acc else digits_aux f (n / 10) (n mod 10 :: acc)
  end.

Definition u64_digits (n : Z) : list Z := digits_aux 20 n [].

Definition digit_char (d : Z) : ascii := ascii_of_Z (48 + d).

Fixpoint string_of_digits (ds : list Z) : string :=
  match ds with
  | [] => EmptyString
  | d :: ds' => String (digit_char d) (string_of_digits ds')
  end.

Definition u64_to_string (n : Z) : string := string_of_digits (u64_digits n).

(** [serde_json::to_string] on the derived [Serialize] impls: fields in
    declaration order, compact formatter. *)
Definition json_key (k : string) : string := json_string k ++ ":".

Definition to_string_Ping (p : Ping) : string :=
  "{" ++ json_key "message" ++ json_string (Ping_message p) ++ ","
      ++ json_key "sequence" ++ u64_to_string (Ping_sequence p) ++ "}".

Definition to_string_Pong (p : Pong) : string :=
  "{" ++ json_key "message" ++ json_string (Pong_message p) ++ ","
      ++ json_key "sequence" ++ u64_to_string (Pong_sequence p) ++ ","
      ++ json_key "total_pings" ++ u64_to_string (Pong_total_pings p) ++ "}".

(** JSON text written with apostrophes standing for double quotes, for
    the concrete frames used below. *)
Fixpoint json_text (s : string) : string :=
  match s with
  | EmptyString => EmptyString
  | String c r => String (if Ascii.eqb c "'"%char then dq else c) (json_text r)
  end.

(** ** [serde_json] reading *)

Inductive json :=
  | JNull
  | JBool (b : bool)
  (** a number: its sign, its integer part, and whether a fraction or an
      exponent follows (then it is read as [f64]) *)
  | JNumber (neg : bool) (int : Z) (frac_or_exp : bool)
  | JString (s : string)
  | JArray (l : list json)
  | JObject (l : list (string * json)).

(** [parse_whitespace]: space, tab, newline and carriage return. *)
Definition is_ws (c : ascii) : bool :=
  let n := Z_of_ascii c in (n =? 32) || (n =? 9) || (n =? 10) || (n =? 13).

Fixpoint skip_ws (s : string) : string :=
  match s with
  | String c r => if is_ws c then skip_ws r else s
  | EmptyString => EmptyString
  end.

Definition is_digit (c : ascii) : bool :=
  let n := Z_of_ascii c in (48 <=? n) && (n <=? 57).

Definition digit_val (c : ascii) : Z := Z_of_ascii c - 48.

Definition hex_val (c : ascii) : option Z :=
  let n := Z_of_ascii c in
  if (48 <=? n) && (n <=? 57) then Some (n - 48)
  else if (97 <=? n) && (n <=? 102) then Some (n - 87)
  else if (65 <=? n) && (n <=? 70) then Some (n - 55)
  else None.

(** [decode_hex_escape]: four hex digits. *)
Definition hex4 (a b c d : ascii) : option Z :=
  match hex_val a, hex_val b, hex_val c, hex_val d with
  | Some x, Some y, Some z, Some w => Some (((x * 16 + y) * 16 + z) * 16 + w)
  | _, _, _, _ => None
  end.

(** [char::encode_utf8]. *)
Definition utf8_encode (n : Z) : string :=
  if n <? 128 then String (ascii_of_Z n) EmptyString
  else if n <? 2048 then
    String (ascii_of_Z (192 + n / 64))
      (String (ascii_of_Z (128 + n mod 64)) EmptyString)
  else if n <? 65536 then
    String (ascii_of_Z (224 + n / 4096))
      (String (ascii_of_Z (128 + (n / 64) mod 64))
        (String (ascii_of_Z (128 + n mod 64)) EmptyString))
  else
    String (ascii_of_Z (240 + n / 262144))
      (String (ascii_of_Z (128 + (n / 4096) mod 64))
        (String (ascii_of_Z (128 + (n / 64) mod 64))
          (String (ascii_of_Z (128 + n mod 64)) EmptyString))).

Definition prepend (p : string) (r : option (string * string))
  : option (string * string) :=
  match r with Some (x, rest) => Some (p ++ x, rest) | None => None end.

(** [parse_str] in validating mode, after the opening quote: returns the
    decoded string and the text after the closing quote. *)
Fixpoint parse_string (s : string) : option (string * string) :=
  match s with
  | EmptyString => None
  | String c r =>
      if Ascii.eqb c dq then Some (EmptyString, r)
      else if Ascii.eqb c bslash then
        match r with
        | EmptyString => None
        | String e r2 =>
            if Ascii.eqb e dq then prepend (String dq EmptyString) (parse_string r2)
            else if Ascii.eqb e bslash then
              prepend (String bslash EmptyString) (parse_string r2)
            else if Ascii.eqb e "/" then prepend "/" (parse_string r2)
            else if Ascii.eqb e "b" then prepend (utf8_encode 8) (parse_string r2)
            else if Ascii.eqb e "f" then prepend (utf8_encode 12) (parse_string r2)
            else if Ascii.eqb e "n" then prepend (utf8_encode 10) (parse_string r2)
            else if Ascii.eqb e "r" then prepend (utf8_encode 13) (parse_string r2)
            else if Ascii.eqb e "t" then prepend (utf8_encode 9) (parse_string r2)
            else if Ascii.eqb e "u" then
              match r2 with
              | String h1 (String h2 (String h3 (String h4 r3))) =>
                  match hex4 h1 h2 h3 h4 with
                  | None => None
                  | Some n =>
                      if (56320 <=? n) && (n <=? 57343) then None
                      else if (55296 <=? n) && (n <=? 56319) then
                        match r3 with
                        | String b1 (String u1
                            (String g1 (String g2 (String g3 (String g4 r4))))) =>
                            if Ascii.eqb b1 bslash && Ascii.eqb u1 "u" then
                              match hex4 g1 g2 g3 g4 with
                              | Some n2 =>
                                  if (56320 <=? n2) && (n2 <=? 57343) then
                                    prepend
                                      (utf8_encode
                                         (Z.lor (Z.shiftl (n - 55296) 10)
                                                (n2 - 56320) + 65536))
                                      (parse_string r4)
                                  else None
                              | None => None
                              end
                            else None
                        | _ => None
                        end
                      else prepend (utf8_encode n) (parse_string r3)
                  end
              | _ => None
              end
            else None
        end
      else if Z_of_ascii c <? 32 then None
      else prepend (String c EmptyString) (parse_string r)
  end.

(** Consume decimal digits, accumulating their value. *)
Fixpoint take_digits (s : string) (acc : Z) : Z * string :=
  match s with
  | String c r => if is_digit c then take_digits r (acc * 10 + digit_val c) else (acc, s)
  | EmptyString => (acc, EmptyString)
  end.

(** The step of [take_digits]: one more decimal digit. *)
Definition dec_step (a d : Z) : Z := a * 10 + d.

Definition starts_with_digit (s : string) : bool :=
  match s with String c _ => is_digit c | EmptyString => false end.

(** At least one digit, then any number of them. *)
Definition digits1 (s : string) : option string :=
  if starts_with_digit s then Some (snd (take_digits s 0)) else None.

(** Optional exponent: [e] or [E], an optional sign, digits. *)
Definition parse_exponent (s : string) : option (bool * string) :=
  match s with
  | String c r =>
      if Ascii.eqb c "e" || Ascii.eqb c "E" then
        let r' := match r with
                  | String d r2 => if Ascii.eqb d "+" || Ascii.eqb d "-" then r2 else r
                  | EmptyString => r
                  end in
        match digits1 r' with Some r'' => Some (true, r'') | None => None end
      else Some (false, s)
  | EmptyString => Some (false, s)
  end.

(** Optional fraction then optional exponent. *)
Definition parse_frac_exp (s : string) : option (bool * string) :=
  match s with
  | String c r =>
      if Ascii.eqb c "." then
        match digits1 r with
        | Some r' =>
            match parse_exponent r' with
            | Some (_, r'') => Some (true, r'')
            | None => None
            end
        | None => None
        end
      else parse_exponent s
  | EmptyString => Some (false, s)
  end.

(** [parse_integer]: a single [0] may not be followed by a digit. *)
Definition parse_unsigned (neg : bool) (s : string) : option (json * string) :=
  match s with
  | String c r =>
      if Ascii.eqb c "0" then
        if starts_with_digit r then None
        else match parse_frac_exp r with
             | Some (fe, r') => Some (JNumber neg 0 fe, r')
             | None => None
             end
      else if is_digit c then
        let (v, r1) := take_digits r (digit_val c) in
        match parse_frac_exp r1 with
        | Some (fe, r') => Some (JNumber neg v fe, r')
        | None => None
        end
      else None
  | EmptyString => None
  end.

Definition parse_number (s : string) : option (json * string) :=
  match s with
  | String c r => if Ascii.eqb c "-" then parse_unsigned true r else parse_unsigned false s
  | EmptyString => None
  end.

Fixpoint strip_prefix (p s : string) : option string :=
  match p, s with
  | EmptyString, _ => Some s
  | String a p', String b s' => if Ascii.eqb a b then strip_prefix p' s' else None
  | String _ _, EmptyString => None
  end.

(** [parse_value] / [ignore_value]: any JSON value, after optional
    whitespace. [fuel] only bounds the recursion: along any chain of calls
    at most three calls pass without consuming a character, so [from_str]
    gives three units per input character. *)
Fixpoint parse_value (fuel : nat) (s : string) : option (json * string) :=
  match fuel with
  | O => None
  | S f =>
      match skip_ws s with
      | EmptyString => None
      | String c r as s' =>
          if Ascii.eqb c "{" then parse_object f r
          else if Ascii.eqb c "[" then parse_array f r
          else if Ascii.eqb c dq then
            match parse_string r with
            | Some (str, r') => Some (JString str, r')
            | None => None
            end
          else if Ascii.eqb c "-" || is_digit c then parse_number s'
          else match strip_prefix "null" s' with
               | Some r' => Some (JNull, r')
               | None =>
                   match strip_prefix "true" s' with
                   | Some r' => Some (JBool true, r')
                   | None =>
                       match strip_prefix "false" s' with
                       | Some r' => Some (JBool false, r')
                       | None => None
                       end
                   end
               end
      end
  end
(** after [\[]: either [\]] or elements separated by commas *)
with parse_array (fuel : nat) (s : string) : option (json * string) :=
  match fuel with
  | O => None
  | S f =>
      match skip_ws s with
      | String c r =>
          if Ascii.eqb c "]" then Some (JArray [], r)
          else match parse_elements f s with
               | Some (vs, r') => Some (JArray vs, r')
               | None => None
               end
      | EmptyString => None
      end
  end
with parse_elements (fuel : nat) (s : string) : option (list json * string) :=
  match fuel with
  | O => None
  | S f =>
      match parse_value f s with
      | None => None
      | Some (v, r) =>
          match skip_ws r with
          | String c r' =>
              if Ascii.eqb c "," then
                match parse_elements f r' with
                | Some (vs, r'') => Some (v :: vs, r'')
                | None => None
                end
              else if Ascii.eqb c "]" then Some ([v], r')
              else None
          | EmptyString => None
          end
      end
  end
(** after [{]: either [}] or members separated by commas *)
with parse_object (fuel : nat) (s : string) : option (json * string) :=
  match fuel with
  | O => None
  | S f =>
      match skip_ws s with
      | String c r =>
          if Ascii.eqb c "}" then Some (JObject [], r)
          else match parse_members f s with
               | Some (ms, r') => Some (JObject ms, r')
               | None => None
               end
      | EmptyString => None
      end
  end
(** a member: a string key, a colon, a value *)
with parse_members (fuel : nat) (s : string)
    : option (list (string * json) * string) :=
  match fuel with
  | O => None
  | S f =>
      match skip_ws s with
      | String q r =>
          if Ascii.eqb q dq then
            match parse_string r with
            | None => None
            | Some (k, r1) =>
                match skip_ws r1 with
                | String colon r2 =>
                    if Ascii.eqb colon ":" then
                      match parse_value f r2 with
                      | None => None
                      | Some (v, r3) =>
                          match skip_ws r3 with
                          | String c r4 =>
                              if Ascii.eqb c "," then
                                match parse_members f r4 with
                                | Some (ms, r5) => Some ((k, v) :: ms, r5)
                                | None => None
                                end
                              else if Ascii.eqb c "}" then Some ([(k, v)], r4)
                              else None
                          | EmptyString => None
                          end
                      end
                    else None
                | EmptyString => None
                end
            end
          else None
      | EmptyString => None
      end
  end.

(** [u64]'s [Deserialize]: a non-negative integer without fraction or
    exponent that fits in 64 bits; everything else is an error. *)
Definition u64_of_json (v : json) : option Z :=
  match v with
  | JNumber false n false => if n <=? u64_max then Some n else None
  | _ => None
  end.

Definition string_of_json (v : json) : option string :=
  match v with JString s => Some s | _ => None end.

(** Derived [Deserialize for Ping], [visit_map]: a field given twice is an
    error, a missing field is an error, unknown fields are ignored. *)
Fixpoint Ping_visit_map (ms : list (string * json))
    (message : option string) (sequence : option Z) : option Ping :=
  match ms with
  | [] =>
      match message, sequence with
      | Some m, Some q => Some (mkPing m q)
      | _, _ => None
      end
  | (k, v) :: ms' =>
      if String.eqb k "message" then
        match message with
        | Some _ => None
        | None =>
            match string_of_json v with
            | Some m => Ping_visit_map ms' (Some m) sequence
            | None => None
            end
        end
      else if String.eqb k "sequence" then
        match sequence with
        | Some _ => None
        | None =>
            match u64_of_json v with
            | Some q => Ping_visit_map ms' message (Some q)
            | None => None
            end
        end
      else Ping_visit_map ms' message sequence
  end.

(** [deserialize_struct]: an object, or an array of exactly the fields
    in declaration order ([visit_seq]). *)
Definition Ping_of_json (v : json) : option Ping :=
  match v with
  | JObject ms => Ping_visit_map ms None None
  | JArray [m; q] =>
      match string_of_json m, u64_of_json q with
      | Some m', Some q' => Some (mkPing m' q')
      | _, _ => None
      end
  | _ => None
  end.

Fixpoint Pong_visit_map (ms : list (string * json)) (message : option string)
    (sequence : option Z) (total_pings : option Z) : option Pong :=
  match ms with
  | [] =>
      match message, sequence, total_pings with
      | Some m, Some q, Some t => Some (mkPong m q t)
      | _, _, _ => None
      end
  | (k, v) :: ms' =>
      if String.eqb k "message" then
        match message with
        | Some _ => None
        | None =>
            match string_of_json v with
            | Some m => Pong_visit_map ms' (Some m) sequence total_pings
            | None => None
            end
        end
      else if String.eqb k "sequence" then
        match sequence with
        | Some _ => None
        | None =>
            match u64_of_json v with
            | Some q => Pong_visit_map ms' message (Some q) total_pings
            | None => None
            end
        end
      else if String.eqb k "total_pings" then
        match total_pings with
        | Some _ => None
        | None =>
            match u64_of_json v with
            | Some t => Pong_visit_map ms' message sequence (Some t)
            | None => None
            end
        end
      else Pong_visit_map ms' message sequence total_pings
  end.

Definition Pong_of_json (v : json) : option Pong :=
  match v with
  | JObject ms => Pong_visit_map ms None None None
  | JArray [m; q; t] =>
      match string_of_json m, u64_of_json q, u64_of_json t with
      | Some m', Some q', Some t' => Some (mkPong m' q' t')
      | _, _, _ => None
      end
  | _ => None
  end.

(** [serde_json::from_str]: one value, then only whitespace. *)
Definition from_str {A} (of_json : json -> option A) (s : string) : option A :=
  match parse_value (3 * String.length s + 3)%nat s with
  | Some (v, r) =>
      match skip_ws r with
      | EmptyString => of_json v
      | String _ _ => None
      end
  | None => None
  end.

Definition from_str_Ping : string -> option Ping := from_str Ping_of_json.
Definition from_str_Pong : string -> option Pong := from_str Pong_of_json.

(** ** ping-http-server: the WebSocket bridge *)

(** [axum::extract::ws::Message] *)
Inductive Message :=
  | MText (text : string)
  | MBinary (data : string)
  | MPing (data : string)
  | MPong (data : string)
  | MClose.

(** One item of [socket.recv()]: [Some(Ok(msg))] or [Some(Err(e))]; the end
    of the list is [None]. *)
Inductive RecvItem := RecvOk (m : Message) | RecvErr.

(** What the loop logs through [tracing]. *)
Inductive LogEvent :=
  | LogConnected
  | LogReceivedPing (sequence : Z)
  | LogSendingPong (sequence : Z)
  | LogActorError
  | LogParseError
  | LogClientClosed
  | LogWebSocketError.

(** Observable effects: log lines and text frames handed to [socket.send],
    with the outcome of the send. *)
Inductive Effect :=
  | Log (e : LogEvent)
  | SendText (frame : string) (ok : bool).

(** Why the [while let] loop ended. *)
Inductive LoopExit := ExitClose | ExitRecvError | ExitSendError | ExitStreamEnd.

Definition emit (es : list Effect) (r : ActorCell * list Effect * LoopExit)
  : ActorCell * list Effect * LoopExit :=
  let '(a, es', ex) := r in (a, app es es', ex).

Section HandleSocket.

Variable prof : profile.
(** whether the [n]-th [socket.send] of this connection succeeds *)
Variable send_ok : nat -> bool.

(** The body of [handle_socket] after the connection log line. [sent]
    counts the sends attempted so far. *)
Fixpoint socket_loop (sent : nat) (actor : ActorCell) (incoming : list RecvItem)
  : ActorCell * list Effect * LoopExit :=
  match incoming with
  | [] => (actor, [], ExitStreamEnd)
  | RecvOk (MText text) :: rest =>
      match from_str_Ping text with
      | Some ping =>
          let '(actor', r) := ask prof actor ping in
          match r with
          | AskOk pong =>
              let json := to_string_Pong pong in
              if send_ok sent then
                emit [Log (LogReceivedPing (Ping_sequence ping));
                      Log (LogSendingPong (Pong_sequence pong));
                      SendText json true]
                     (socket_loop (S sent) actor' rest)
              else
                (actor', [Log (LogReceivedPing (Ping_sequence ping));
                          Log (LogSendingPong (Pong_sequence pong));
                          SendText json false], ExitSendError)
          | AskErr =>
              emit [Log (LogReceivedPing (Ping_sequence ping)); Log LogActorError]
                   (socket_loop sent actor' rest)
          end
      | None => emit [Log LogParseError] (socket_loop sent actor rest)
      end
  | RecvOk MClose :: _ => (actor, [Log LogClientClosed], ExitClose)
  | RecvErr :: _ => (actor, [Log LogWebSocketError], ExitRecvError)
  | RecvOk _ :: rest => socket_loop sent actor rest
  end.

Definition handle_socket (actor : ActorCell) (incoming : list RecvItem)
  : ActorCell * list Effect * LoopExit :=
  emit [Log LogConnected] (socket_loop 0 actor incoming).

End HandleSocket.

(** Which incoming item or which send ended a run of the loop: a close
    frame, a receive error, a failed send, or, for the end of the stream,
    none of these. *)
Definition exit_cause (incoming : list RecvItem) (r : ActorCell * list Effect * LoopExit)
  : Prop :=
  let '(_, es, ex) := r in
  match ex with
  | ExitClose => In (RecvOk MClose) incoming
  | ExitRecvError => In RecvErr incoming
  | ExitSendError => exists f, In (SendText f false) es
  | ExitStreamEnd =>
      ~ In (RecvOk MClose) incoming /\ ~ In RecvErr incoming /\
      forall f, ~ In (SendText f false) es
  end.

(** The frames a client receives: the successful sends. *)
Fixpoint frames_sent (es : list Effect) : list string :=
  match es with
  | [] => []
  | SendText f true :: es' => f :: frames_sent es'
  | _ :: es' => frames_sent es'
  end.

(** [main] of ping-http-server: [PingActor::spawn(PingActor { ping_count: 0 })]. *)
Definition http_server_initial_actor : ActorCell := Some (mkPingActor 0).

(** ** ping-cli-server and ping-cli-client: the peer-to-peer setup *)

(** The remote identity a registry entry carries: [RemoteActor::REMOTE_ID]
    and the [#[remote_message]] id of the [Ping] handler. *)
Record RemoteIdentity := mkRemoteIdentity {
  remote_id : string;
  message_id : string
}.

Definition PingActor_identity : RemoteIdentity :=
  mkRemoteIdentity PingActor_REMOTE_ID Ping_remote_message_id.

(** The server registers [PingActor] and the client looks up
    [RemoteActorRef::<PingActor>]; both take the type from [ping_common]. *)
Definition cli_server_registered_identity : RemoteIdentity := PingActor_identity.
Definition cli_client_lookup_identity : RemoteIdentity := PingActor_identity.

(** What each binary's [SwarmBuilder] chain sets, in seconds. *)
Record P2PConfig := mkP2PConfig {
  request_timeout_secs : Z;            (* [messaging::Config::with_request_timeout] *)
  idle_connection_timeout_secs : Z     (* [with_idle_connection_timeout] *)
}.

Definition cli_server_config : P2PConfig := mkP2PConfig 120 600.
Definition cli_client_config : P2PConfig := mkP2PConfig 120 600.

(** ** Facts about values read by the parser *)

(** A number value carries a non-negative magnitude (its sign is kept apart). *)
Definition top_nonneg (v : json) : Prop :=
  match v with JNumber _ n _ => 0 <= n | _ => True end.

(** The members of an object, or the elements of an array, are values
    whose own magnitude is non-negative. *)
Definition fields_nonneg (v : json) : Prop :=
  match v with
  | JObject ms => Forall (fun kv => top_nonneg (snd kv)) ms
  | JArray vs => Forall top_nonneg vs
  | _ => True
  end.

(** A running actor whose counter is a [u64] value. *)
Definition cell_in_range (c : ActorCell) : Prop :=
  match c with None => True | Some a => 0 <= ping_count a <= u64_max end.

(** The items the loop's [_ => {}] arm drops: binary, ping and pong frames. *)
Definition ignored_item (i : RecvItem) : bool :=
  match i with
  | RecvOk (MBinary _) | RecvOk (MPing _) | RecvOk (MPong _) => true
  | _ => false
  end.

Definition no_failed_send (es : list Effect) : Prop :=
  forall f, ~ In (SendText f false) es.

(** Either no send failed and the loop did not stop for a send error, or
    the one failed send is the last effect and the reason the loop stopped. *)
Definition failed_send_last (r : ActorCell * list Effect * LoopExit) : Prop :=
  let '(_, es, ex) := r in
  (no_failed_send es /\ ex <> ExitSendError) \/
  (exists es' f, es = app es' [SendText f false] /\ no_failed_send es' /\ ex = ExitSendError).

(** ** ping-wasm-client *)

(** [WasmPingClient { ws, ping_count }]; the [ws] handle is the
    environment, whose sends succeed or fail. *)
Record WasmPingClient := mkWasmPingClient { wasm_ping_count : Z }.

(** [WasmPingClient::new] returns [Ok(WasmPingClient { ws, ping_count: 0 })]. *)
Definition wasm_new : WasmPingClient := mkWasmPingClient 0.

(** The [Ping] literal of [send_ping]; [format!] writes a [u64] in decimal. *)
Definition wasm_ping (n : Z) : Ping := mkPing ("Hello from Wasm #" ++ u64_to_string n) n.

(** [send_ping]: increment the counter, serialize the ping, log, then
    [send_with_str]. The result is the new client, the console lines, the
    frame handed to [send_with_str] and whether [send_ping] returned [Ok]
    (the outcome [send_ok] of the send); [None] is the overflow panic.
    [serde_json::to_string] cannot fail on a [Ping]. *)
Definition send_ping (prof : profile) (self : WasmPingClient) (send_ok : bool)
  : option (WasmPingClient * list string * string * bool) :=
  match u64_add_assign prof (wasm_ping_count self) 1 with
  | None => None
  | Some n =>
      let self' := mkWasmPingClient n in
      let json := to_string_Ping (wasm_ping n) in
      Some (self', ["Sending PING #" ++ u64_to_string n], json, send_ok)
  end.

(** Successive [send_ping] calls, with the outcome of each send; the list
    collects the frame and the result of every call. *)
Fixpoint wasm_send_pings (prof : profile) (self : WasmPingClient) (oks : list bool)
  : option (WasmPingClient * list (string * bool)) :=
  match oks with
  | [] => Some (self, [])
  | ok :: oks' =>
      match send_ping prof self ok with
      | None => None
      | Some (self', _, json, res) =>
          match wasm_send_pings prof self' oks' with
          | None => None
          | Some (self'', out) => Some (self'', (json, res) :: out)
          end
      end
  end.

(** [MessageEvent::data]: a JS string, or anything else (a [Blob], an
    [ArrayBuffer]) on which [dyn_into::<JsString>] fails. *)
Inductive MessageData := DataString (s : string) | DataOther.

(** The [onmessage] closure: the console lines it logs. *)
Definition wasm_onmessage (d : MessageData) : list string :=
  match d with
  | DataString s =>
      match from_str_Pong s with
      | Some pong =>
          ["PONG #" ++ u64_to_string (Pong_sequence pong) ++ ": " ++ Pong_message pong
           ++ " (total: " ++ u64_to_string (Pong_total_pings pong) ++ ")"]
      | None => []
      end
  | DataOther => []
  end.

(** ** ping-cli-client: the ping loop *)

(** What the loop does: log and [ask] a ping, log the reply or the error,
    and sleep between pings. *)
Inductive CliEvent :=
  | CliSendPing (ping : Ping)
  | CliReceivedPong (sequence total_pings : Z)
  | CliError
  | CliSleep (secs : Z).

Section CliClient.

(** The remote actor behind [RemoteActorRef::ask], with its state. *)
Variable R : Type.
Variable remote_ask : R -> Ping -> R * AskResult.

(** The ping of iteration [i]. *)
Definition cli_ping (i : Z) : Ping := mkPing ("Hello from CLI client #" ++ u64_to_string i) i.

(** The body of [for i in 1..=10], over the remaining values of [i]. *)
Fixpoint cli_ping_loop (r : R) (is : list Z) : R * list CliEvent :=
  match is with
  | [] => (r, [])
  | i :: is' =>
      let ping := cli_ping i in
      let (r', res) := remote_ask r ping in
      let ev := match res with
                | AskOk pong => CliReceivedPong (Pong_sequence pong) (Pong_total_pings pong)
                | AskErr => CliError
                end in
      let sl := if i <? 10 then [CliSleep 1] else [] in
      let (r'', evs) := cli_ping_loop r' is' in
      (r'', CliSendPing ping :: ev :: app sl evs)
  end.

Definition cli_ping_sequence (r : R) : R * list CliEvent :=
  cli_ping_loop r (map Z.of_nat (seq 1 10)).

End CliClient.

Arguments cli_ping_loop {R} remote_ask r is.
Arguments cli_ping_sequence {R} remote_ask r.

Fixpoint cli_sent_pings (evs : list CliEvent) : list Ping :=
  match evs with
  | [] => []
  | CliSendPing p :: evs' => p :: cli_sent_pings evs'
  | _ :: evs' => cli_sent_pings evs'
  end.

Fixpoint cli_sleeps (evs : list CliEvent) : nat :=
  match evs with
  | [] => O
  | CliSleep _ :: evs' => S (cli_sleeps evs')
  | _ :: evs' => cli_sleeps evs'
  end.

Fixpoint cli_received (evs : list CliEvent) : list (Z * Z) :=
  match evs with
  | [] => []
  | CliReceivedPong s t :: evs' => (s, t) :: cli_received evs'
  | _ :: evs' => cli_received evs'
  end.

Fixpoint cli_errors (evs : list CliEvent) : nat :=
  match evs with
  | [] => O
  | CliError :: evs' => S (cli_errors evs')
  | _ :: evs' => cli_errors evs'
  end.

(** ** The browser client of [serve_index]

    Its JavaScript builds [{ message: `Hello from browser #${pingCount}`,
    sequence: pingCount }] and sends [JSON.stringify(ping)]. JS strings
    are modelled by their code units, here all ASCII. *)

(** ECMAScript [UnicodeEscape]: [\u] and four lower-case hex digits. *)
Definition js_unicode_escape (n : Z) : string :=
  String bslash (String "u"
    (String (hex_digit ((n / 4096) mod 16)) (String (hex_digit ((n / 256) mod 16))
      (String (hex_digit ((n / 16) mod 16)) (String (hex_digit (n mod 16)) EmptyString))))).

(** ECMAScript [QuoteJSONString], one code unit: the short escapes of its
    table, then [UnicodeEscape] below [0x20], else the unit itself. *)
Definition js_quote_unit (c : ascii) : string :=
  let n := Z_of_ascii c in
  if n =? 8 then String bslash "b"
  else if n =? 9 then String bslash "t"
  else if n =? 10 then String bslash "n"
  else if n =? 12 then String bslash "f"
  else if n =? 13 then String bslash "r"
  else if n =? 34 then String bslash (String dq EmptyString)
  else if n =? 92 then String bslash (String bslash EmptyString)
  else if n <? 32 then js_unicode_escape n
  else String c EmptyString.

Fixpoint js_quote_units (s : string) : string :=
  match s with
  | EmptyString => EmptyString
  | String c r => js_quote_unit c ++ js_quote_units r
  end.

Definition js_quote (s : string) : string :=
  String dq (js_quote_units s ++ String dq EmptyString).

(** [Number.prototype.toString] of an integer [0 <= n < 10^21]: its
    decimal digits (the same digits [itoa] writes). *)
Definition js_number_to_string (n : Z) : string := u64_to_string n.

(** [JSON.stringify] of the object literal [{ message, sequence }]: the
    keys in creation order, no white space. *)
Definition js_stringify_ping (message : string) (sequence : Z) : string :=
  "{" ++ js_quote "message" ++ ":" ++ js_quote message ++ ","
      ++ js_quote "sequence" ++ ":" ++ js_number_to_string sequence ++ "}".

(** The frame the page sends when [pingCount] has just become [n]. *)
Definition browser_ping_frame (n : Z) : string :=
  js_stringify_ping ("Hello from browser #" ++ js_number_to_string n) n.

(** How many members of a JSON object carry the key [k]. *)
Definition key_count (k : string) (ms : list (string * json)) : nat :=
  length (filter (fun kv => String.eqb (fst kv) k) ms).

(** The events that report the outcome of an [ask]. *)
Definition cli_is_result (e : CliEvent) : bool :=
  match e with CliReceivedPong _ _ | CliError => true | _ => false end.

(** * Proofs *)

(** ** The handler *)

Lemma handle_no_overflow (prof : profile) (c : Z) (m : Ping) :
  0 <= c < u64_max ->
  handle prof (mkPingActor c) m =
  Some (mkPingActor (c + 1),
        mkPong ("Pong! Responding to: " ++ Ping_message m) (Ping_sequence m) (c + 1)).
Proof.
  intros Hc. unfold handle, u64_add_assign; simpl.
  destruct prof.
  - replace (c + 1 <=? u64_max) with true by (symmetry; apply Z.leb_le; lia).
    reflexivity.
  - unfold u64_max in Hc. rewrite Z.mod_small by lia. reflexivity.
Qed.

Lemma handle_release (c : Z) (m : Ping) :
  handle Release (mkPingActor c) m =
  Some (mkPingActor ((c + 1) mod 2 ^ 64),
        mkPong ("Pong! Responding to: " ++ Ping_message m) (Ping_sequence m)
               ((c + 1) mod 2 ^ 64)).
Proof. reflexivity. Qed.

Lemma handle_debug_overflow (m : Ping) :
  handle Debug (mkPingActor u64_max) m = None.
Proof. reflexivity. Qed.

Lemma handle_debug_overflow_ask (m : Ping) :
  ask Debug (Some (mkPingActor u64_max)) m = (None, AskErr).
Proof. reflexivity. Qed.

(** In a debug build the handler panics exactly when the counter is at
    [2^64 - 1]. *)
Lemma handle_debug_none_iff (c : Z) (m : Ping) :
  0 <= c <= u64_max -> handle Debug (mkPingActor c) m = None <-> c = u64_max.
Proof.
  intros Hc. split.
  - intros H. destruct (Z.eq_dec c u64_max) as [E | E]; [exact E |].
    rewrite handle_no_overflow in H by lia. discriminate H.
  - intros ->. reflexivity.
Qed.

(** ** The mailbox *)

Lemma run_mailbox_length {A} (prof : profile) (cell : ActorCell) (msgs : list (A * Ping)) :
  length (snd (run_mailbox prof cell msgs)) = length msgs.
Proof.
  revert cell. induction msgs as [|[a m] msgs IH]; intros cell; simpl; [reflexivity|].
  destruct (ask prof cell m) as [cell' r].
  specialize (IH cell'). destruct (run_mailbox prof cell' msgs) as [c'' rs].
  simpl in *. congruence.
Qed.

Lemma run_mailbox_app {A} (prof : profile) (cell : ActorCell) (l1 l2 : list (A * Ping)) :
  run_mailbox prof cell (l1 ++ l2) =
  let (c1, r1) := run_mailbox prof cell l1 in
  let (c2, r2) := run_mailbox prof c1 l2 in (c2, app r1 r2).
Proof.
  revert cell. induction l1 as [|[a m] l1 IH]; intros cell; simpl.
  - destruct (run_mailbox prof cell l2); reflexivity.
  - destruct (ask prof cell m) as [cell' r]. rewrite IH.
    destruct (run_mailbox prof cell' l1) as [c1 r1].
    destruct (run_mailbox prof c1 l2) as [c2 r2]. reflexivity.
Qed.

Lemma totals_app (r1 r2 : list AskResult) : totals (app r1 r2) = app (totals r1) (totals r2).
Proof.
  induction r1 as [|[p|] r1 IH]; simpl; [reflexivity| |]; rewrite IH; reflexivity.
Qed.

Lemma map_seq_shift (c : Z) (start n : nat) :
  map (fun i : nat => c + 1 + Z.of_nat i) (seq start n) =
  map (fun i : nat => c + Z.of_nat i) (seq (S start) n).
Proof.
  rewrite <- seq_shift, map_map. apply map_ext. intros i. lia.
Qed.

(** Below the [u64] limit every message is answered and the replies carry
    the totals [c + 1, ..., c + n], in either build. *)
Lemma run_mailbox_no_overflow {A} (prof : profile) (c : Z) (msgs : list (A * Ping)) :
  0 <= c -> c + Z.of_nat (length msgs) <= u64_max ->
  fst (run_mailbox prof (Some (mkPingActor c)) msgs)
    = Some (mkPingActor (c + Z.of_nat (length msgs))) /\
  Forall (fun r => r <> AskErr) (snd (run_mailbox prof (Some (mkPingActor c)) msgs)) /\
  totals (snd (run_mailbox prof (Some (mkPingActor c)) msgs))
    = map (fun i : nat => c + Z.of_nat i) (seq 1 (length msgs)).
Proof.
  revert c. induction msgs as [|[a m] msgs IH]; intros c Hc Hn; simpl in *.
  - repeat split; [f_equal; f_equal; lia | constructor].
  - rewrite handle_no_overflow by lia.
    destruct (IH (c + 1)) as (H1 & H2 & H3); [lia | lia |].
    destruct (run_mailbox prof (Some (mkPingActor (c + 1))) msgs) as [c2 rs].
    simpl in *. repeat split.
    + rewrite H1. do 2 f_equal. lia.
    + constructor; [discriminate | exact H2].
    + rewrite H3, map_seq_shift. reflexivity.
Qed.

(** In a release build the counter runs modulo [2^64]. *)
Lemma run_mailbox_release {A} (c : Z) (msgs : list (A * Ping)) :
  0 <= c < 2 ^ 64 ->
  fst (run_mailbox Release (Some (mkPingActor c)) msgs)
    = Some (mkPingActor ((c + Z.of_nat (length msgs)) mod 2 ^ 64)) /\
  Forall (fun r => r <> AskErr) (snd (run_mailbox Release (Some (mkPingActor c)) msgs)) /\
  totals (snd (run_mailbox Release (Some (mkPingActor c)) msgs))
    = map (fun i : nat => (c + Z.of_nat i) mod 2 ^ 64) (seq 1 (length msgs)).
Proof.
  revert c. induction msgs as [|[a m] msgs IH]; intros c Hc; cbn [run_mailbox length].
  - split; [|split; [constructor | reflexivity]].
    cbn [fst Z.of_nat]. rewrite Z.add_0_r, Z.mod_small by exact Hc. reflexivity.
  - unfold ask. rewrite handle_release.
    set (c' := (c + 1) mod 2 ^ 64).
    assert (Hc' : 0 <= c' < 2 ^ 64) by (apply Z.mod_pos_bound; lia).
    destruct (IH c' Hc') as (H1 & H2 & H3).
    cbv beta iota.
    destruct (run_mailbox Release (Some (mkPingActor c')) msgs) as [c2 rs].
    cbn [fst snd totals] in *. repeat split.
    + rewrite H1. unfold c'. rewrite Z.add_mod_idemp_l by lia. do 3 f_equal. lia.
    + constructor; [discriminate | exact H2].
    + rewrite H3. cbn [seq map Pong_total_pings]. apply f_equal2; [reflexivity |].
      rewrite <- (seq_shift _ 1), map_map. apply map_ext. intros i.
      unfold c'. rewrite Z.add_mod_idemp_l by lia. f_equal. lia.
Qed.

Lemma run_mailbox_cons {A} (prof : profile) (c : Z) (a : A) (m : Ping)
    (ms : list (A * Ping)) :
  0 <= c < u64_max ->
  run_mailbox prof (Some (mkPingActor c)) ((a, m) :: ms) =
  let (c2, rs) := run_mailbox prof (Some (mkPingActor (c + 1))) ms in
  (c2, AskOk (mkPong ("Pong! Responding to: " ++ Ping_message m) (Ping_sequence m) (c + 1))
       :: rs).
Proof.
  intros Hc. cbn [run_mailbox]. unfold ask at 1. rewrite handle_no_overflow by exact Hc.
  reflexivity.
Qed.

Lemma StronglySorted_lt_le (l : list Z) : StronglySorted Z.lt l -> StronglySorted Z.le l.
Proof.
  induction 1 as [|x l Hs IH Hf]; constructor; [exact IH |].
  eapply Forall_impl; [| exact Hf]. intros y Hy. lia.
Qed.

Lemma StronglySorted_app_r {T} (R : T -> T -> Prop) (l1 l2 : list T) :
  StronglySorted R (app l1 l2) -> StronglySorted R l2.
Proof.
  induction l1 as [|x l1 IH]; simpl; [auto |].
  intros H. apply StronglySorted_inv in H. apply IH, H.
Qed.

(** All totals after [c] are above [c] and strictly increasing. *)
Lemma totals_run_increasing {A} (prof : profile) (c : Z) (msgs : list (A * Ping)) :
  0 <= c -> c + Z.of_nat (length msgs) <= u64_max ->
  let l := totals (snd (run_mailbox prof (Some (mkPingActor c)) msgs)) in
  Forall (Z.lt c) l /\ StronglySorted Z.lt l.
Proof.
  revert c. induction msgs as [|[a m] ms IH]; intros c Hc Hn; [split; constructor |].
  cbn [length] in Hn. rewrite run_mailbox_cons by lia.
  destruct (IH (c + 1)) as [Hf Hs]; [lia | lia |].
  destruct (run_mailbox prof (Some (mkPingActor (c + 1))) ms) as [c2 rs].
  cbn [snd totals Pong_total_pings] in *. split.
  - constructor; [lia |]. eapply Forall_impl; [| exact Hf]. intros y Hy. lia.
  - constructor; assumption.
Qed.

(** The same for the replies one client observes. *)
Lemma client_totals_run_increasing (prof : profile) (k : nat) (c : Z)
    (msgs : list (nat * Ping)) :
  0 <= c -> c + Z.of_nat (length msgs) <= u64_max ->
  let l := client_totals k msgs (snd (run_mailbox prof (Some (mkPingActor c)) msgs)) in
  Forall (Z.lt c) l /\ StronglySorted Z.lt l.
Proof.
  revert c. induction msgs as [|[a m] ms IH]; intros c Hc Hn; [split; constructor |].
  cbn [length] in Hn. rewrite run_mailbox_cons by lia.
  destruct (IH (c + 1)) as [Hf Hs]; [lia | lia |].
  destruct (run_mailbox prof (Some (mkPingActor (c + 1))) ms) as [c2 rs].
  cbn [snd client_totals Pong_total_pings] in *.
  destruct (Nat.eqb a k); split.
  - constructor; [lia |]. eapply Forall_impl; [| exact Hf]. intros y Hy. lia.
  - constructor; assumption.
  - eapply Forall_impl; [| exact Hf]. intros y Hy. lia.
  - exact Hs.
Qed.

(** When every message comes from [k], [k] sees every total. *)
Lemma client_totals_single_client (k : nat) (msgs : list (nat * Ping)) (rs : list AskResult) :
  Forall (fun x => fst x = k) msgs -> length rs = length msgs ->
  client_totals k msgs rs = totals rs.
Proof.
  revert rs. induction msgs as [|[a m] ms IH]; intros rs Hk Hl.
  - destruct rs; [reflexivity | discriminate].
  - destruct rs as [|r rs]; [discriminate |]. pose proof (Forall_inv Hk) as Ha. pose proof (Forall_inv_tail Hk) as Hk'.
    cbn [fst] in Ha. subst a. cbn [length] in Hl. injection Hl as Hl.
    destruct r as [p|]; cbn [client_totals totals];
      [rewrite Nat.eqb_refl |]; rewrite IH by assumption; reflexivity.
Qed.

Lemma seq_last_two (n : nat) : seq 1 (S (S n)) = app (seq 1 n) [S n; S (S n)].
Proof. rewrite !seq_S, <- app_assoc. reflexivity. Qed.

(** In a release build, [2^64] requests from counter [0] leave the counter
    at [0]; the last two replies carry [2^64 - 1] and then [0]. *)
Lemma release_wrap_totals {A} (msgs : list (A * Ping)) :
  Z.of_nat (length msgs) = 2 ^ 64 ->
  fst (run_mailbox Release (Some (mkPingActor 0)) msgs) = Some (mkPingActor 0) /\
  exists earlier,
    totals (snd (run_mailbox Release (Some (mkPingActor 0)) msgs)) = app earlier [u64_max; 0].
Proof.
  intros Hl.
  destruct (run_mailbox_release 0 msgs) as (H1 & _ & H3); [lia |].
  rewrite H1, H3. split.
  - rewrite Hl, Z.add_0_l, Z.mod_same by lia. reflexivity.
  - destruct (length msgs) as [|[|n]]; [lia | lia |].
    assert (Hn : Z.of_nat n = 2 ^ 64 - 2) by lia.
    rewrite seq_last_two, map_app.
    eexists. apply f_equal. cbn [map]. rewrite !Nat2Z.inj_succ, Hn.
    replace (0 + Z.succ (2 ^ 64 - 2)) with u64_max by (unfold u64_max; lia).
    replace (0 + Z.succ (Z.succ (2 ^ 64 - 2))) with (2 ^ 64) by lia.
    rewrite Z.mod_same by lia. rewrite Z.mod_small by (unfold u64_max; lia).
    reflexivity.
Qed.

(** A stopped actor answers every later request with an error. *)
Lemma run_mailbox_stopped {A} (prof : profile) (rest : list (A * Ping)) :
  run_mailbox prof None rest = (None, repeat AskErr (length rest)).
Proof.
  induction rest as [|[a m] rest IH]; [reflexivity |].
  cbn [run_mailbox ask]. rewrite IH. reflexivity.
Qed.

(** In a debug build, once the counter has reached [2^64 - 1], the next
    request panics: its ask fails, the actor is stopped and every later
    request fails too; the requests before it were all answered. *)
Lemma debug_overflow_run {A} (c : Z) (l : list (A * Ping)) (x : A * Ping)
    (rest : list (A * Ping)) :
  0 <= c -> c + Z.of_nat (length l) = u64_max ->
  Forall (fun r => r <> AskErr) (snd (run_mailbox Debug (Some (mkPingActor c)) l)) /\
  run_mailbox Debug (Some (mkPingActor c)) (app l (x :: rest)) =
    (None, app (snd (run_mailbox Debug (Some (mkPingActor c)) l))
               (repeat AskErr (S (length rest)))).
Proof.
  intros Hc Hl. rewrite run_mailbox_app.
  destruct (run_mailbox_no_overflow Debug c l) as (H1 & H2 & _); [lia | lia |].
  destruct (run_mailbox Debug (Some (mkPingActor c)) l) as [c1 r1].
  cbn [fst snd] in *. subst c1. split; [exact H2 |].
  destruct x as [a m]. rewrite Hl. cbn [run_mailbox].
  rewrite handle_debug_overflow_ask, run_mailbox_stopped. reflexivity.
Qed.

(** ** C1: one request, one increment *)

(** C1: for every request the handler answers, the counter is incremented
    exactly once (by one, as a [u64]), the reply echoes the request's
    sequence, and the reply's [total_pings] is the counter after that
    increment. *)
Theorem handle_increments_once (prof : profile) (self self' : PingActor)
    (msg : Ping) (pong : Pong) :
  0 <= ping_count self <= u64_max ->
  handle prof self msg = Some (self', pong) ->
  ping_count self' = (ping_count self + 1) mod 2 ^ 64 /\
  Pong_sequence pong = Ping_sequence msg /\
  Pong_total_pings pong = ping_count self'.
Proof.
  intros Hr H. destruct self as [c]. cbn [ping_count] in *.
  unfold handle, u64_add_assign in H. cbn [ping_count] in H.
  destruct prof.
  - destruct (c + 1 <=? u64_max) eqn:E; [| discriminate].
    apply Z.leb_le in E. injection H as <- <-. cbn.
    rewrite Z.mod_small by (unfold u64_max in *; lia). repeat split.
  - injection H as <- <-. cbn. repeat split.
Qed.

Lemma handle_increments_once_witness :
  (0 <= 41 <= u64_max /\
   handle Debug (mkPingActor 41) (mkPing "hi" 7) =
     Some (mkPingActor 42, mkPong "Pong! Responding to: hi" 7 42)) /\
  (ping_count (mkPingActor 42) = (41 + 1) mod 2 ^ 64 /\
   Pong_sequence (mkPong "Pong! Responding to: hi" 7 42) = Ping_sequence (mkPing "hi" 7) /\
   Pong_total_pings (mkPong "Pong! Responding to: hi" 7 42) = ping_count (mkPingActor 42)).
Proof.
  split.
  - split; [unfold u64_max; lia | reflexivity].
  - apply (handle_increments_once Debug (mkPingActor 41) (mkPingActor 42) (mkPing "hi" 7)
             (mkPong "Pong! Responding to: hi" 7 42)); [unfold u64_max; simpl; lia | reflexivity].
Defined.

(** ** C2: the totals are [1..N] *)

(** C2 (as amended): for every sequence of [N < 2^64] requests, tagged
    with any mix of transports, processed by a handler started at [0],
    every request gets a reply and the multiset of [total_pings] values is
    exactly [{1, ..., N}]. *)
Theorem mailbox_totals_one_to_n (prof : profile) (msgs : list (transport * Ping)) :
  Z.of_nat (length msgs) <= u64_max ->
  let rs := snd (run_mailbox prof (Some (mkPingActor 0)) msgs) in
  length rs = length msgs /\
  Forall (fun r => r <> AskErr) rs /\
  Permutation (totals rs) (map Z.of_nat (seq 1 (length msgs))).
Proof.
  intros Hn rs. split; [apply run_mailbox_length |].
  destruct (run_mailbox_no_overflow prof 0 msgs) as (_ & H2 & H3); [lia | lia |].
  split; [exact H2 |]. unfold rs. rewrite H3.
  rewrite (map_ext _ Z.of_nat) by (intros i; lia). reflexivity.
Qed.

Lemma mailbox_totals_one_to_n_witness :
  Z.of_nat (length [(WebSocketTransport, mkPing "a" 1); (PeerToPeerTransport, mkPing "b" 1)])
    <= u64_max /\
  (let msgs := [(WebSocketTransport, mkPing "a" 1); (PeerToPeerTransport, mkPing "b" 1)] in
   let rs := snd (run_mailbox Release (Some (mkPingActor 0)) msgs) in
   length rs = length msgs /\
   Forall (fun r => r <> AskErr) rs /\
   Permutation (totals rs) (map Z.of_nat (seq 1 (length msgs)))).
Proof.
  split; [unfold u64_max; simpl; lia |].
  apply (mailbox_totals_one_to_n Release); unfold u64_max; simpl; lia.
Defined.

(** C2 fails at [N = 2^64] in a release build: the last reply carries
    [total_pings = 0], which is not in [{1, ..., 2^64}]. *)
Lemma mailbox_totals_wrap_counterexample :
  ~ Permutation
      (totals (snd (run_mailbox Release (Some (mkPingActor 0))
                      (repeat (WebSocketTransport, mkPing "hi" 1) (Z.to_nat (2 ^ 64))))))
      (map Z.of_nat (seq 1 (length (repeat (WebSocketTransport, mkPing "hi" 1)
                                            (Z.to_nat (2 ^ 64)))))).
Proof.
  remember (Z.to_nat (2 ^ 64)) as N eqn:HN.
  assert (HZ : Z.of_nat N = 2 ^ 64) by (subst N; apply Z2Nat.id; lia).
  clear HN. intros Hp.
  assert (Hl : length (repeat (WebSocketTransport, mkPing "hi" 1) N) = N)
    by apply repeat_length.
  destruct (run_mailbox_release 0 (repeat (WebSocketTransport, mkPing "hi" 1) N))
    as (_ & _ & H3); [lia |].
  rewrite H3, Hl in Hp.
  assert (Hin : In 0 (map (fun i : nat => (0 + Z.of_nat i) mod 2 ^ 64) (seq 1 N))).
  { apply in_map_iff. exists N. split.
    - rewrite HZ, Z.add_0_l. apply Z.mod_same. lia.
    - apply in_seq. lia. }
  apply (Permutation_in _ Hp), in_map_iff in Hin.
  destruct Hin as (i & Hi & Hs). apply in_seq in Hs. lia.
Qed.

(** ** C3: increasing counter and totals *)

(** C3 (as amended): while fewer than [2^64] requests have been handled
    since the counter started at [0], the counter never decreases and the
    totals any single client [k] observes, in the order its requests were
    processed, are strictly increasing. *)
Theorem totals_increasing_per_client (prof : profile) (msgs : list (nat * Ping)) (k : nat) :
  Z.of_nat (length msgs) <= u64_max ->
  let rs := snd (run_mailbox prof (Some (mkPingActor 0)) msgs) in
  StronglySorted Z.le (0 :: totals rs) /\
  StronglySorted Z.lt (client_totals k msgs rs).
Proof.
  intros Hn rs. split.
  - destruct (totals_run_increasing prof 0 msgs) as [Hf Hs]; [lia | lia |].
    apply StronglySorted_lt_le. constructor; assumption.
  - apply (client_totals_run_increasing prof k 0 msgs); lia.
Qed.

Lemma totals_increasing_per_client_witness :
  Z.of_nat (length [(1%nat, mkPing "a" 1); (2%nat, mkPing "b" 1); (1%nat, mkPing "c" 2)])
    <= u64_max /\
  (let msgs := [(1%nat, mkPing "a" 1); (2%nat, mkPing "b" 1); (1%nat, mkPing "c" 2)] in
   let rs := snd (run_mailbox Debug (Some (mkPingActor 0)) msgs) in
   StronglySorted Z.le (0 :: totals rs) /\
   StronglySorted Z.lt (client_totals 1 msgs rs)).
Proof.
  split; [unfold u64_max; simpl; lia |].
  apply (totals_increasing_per_client Debug); unfold u64_max; simpl; lia.
Defined.

(** C3 fails once [2^64] requests from one client have been handled in a
    release build: the counter goes from [2^64 - 1] back to [0]. *)
Lemma totals_increasing_wrap_counterexample :
  ~ (StronglySorted Z.le
       (0 :: totals (snd (run_mailbox Release (Some (mkPingActor 0))
                            (repeat (0%nat, mkPing "hi" 1) (Z.to_nat (2 ^ 64)))))) /\
     StronglySorted Z.lt
       (client_totals 0 (repeat (0%nat, mkPing "hi" 1) (Z.to_nat (2 ^ 64)))
          (snd (run_mailbox Release (Some (mkPingActor 0))
                  (repeat (0%nat, mkPing "hi" 1) (Z.to_nat (2 ^ 64))))))).
Proof.
  remember (Z.to_nat (2 ^ 64)) as N eqn:HN.
  assert (HZ : Z.of_nat N = 2 ^ 64) by (subst N; apply Z2Nat.id; lia).
  clear HN. intros [_ Hs].
  set (msgs := repeat (0%nat, mkPing "hi" 1) N) in *.
  assert (Hl : length msgs = N) by apply repeat_length.
  rewrite client_totals_single_client in Hs.
  - destruct (release_wrap_totals msgs) as [_ [earlier He]]; [congruence |].
    rewrite He in Hs. apply StronglySorted_app_r, StronglySorted_inv in Hs.
    destruct Hs as [_ Hf]. apply Forall_inv in Hf. unfold u64_max in Hf. lia.
  - apply Forall_forall. intros x Hx. apply repeat_spec in Hx. subst x. reflexivity.
  - apply run_mailbox_length.
Qed.

(** ** C9: the counter is a [u64] *)

(** C9: the counter is a [u64] computed modulo [2^64]. In a release
    build every run, from any counter [c], yields the totals [c + i mod
    2^64] for its [i]-th request, with no error: after [2^64] requests from
    [0] the counter has wrapped back to [0] (the last two totals are
    [2^64 - 1] then [0], so the totals are not strictly increasing). In a
    debug build the handler panics exactly when the counter is [2^64 - 1]:
    in every run, the request that would take the counter past [2^64 - 1]
    gets an error instead of a reply, the actor stops and every later
    request fails too, while all earlier requests were answered. *)
Theorem ping_count_wraps_at_u64 :
  (forall (A : Type) (c : Z) (msgs : list (A * Ping)),
     0 <= c < 2 ^ 64 ->
     fst (run_mailbox Release (Some (mkPingActor c)) msgs)
       = Some (mkPingActor ((c + Z.of_nat (length msgs)) mod 2 ^ 64)) /\
     Forall (fun r => r <> AskErr) (snd (run_mailbox Release (Some (mkPingActor c)) msgs)) /\
     totals (snd (run_mailbox Release (Some (mkPingActor c)) msgs))
       = map (fun i : nat => (c + Z.of_nat i) mod 2 ^ 64) (seq 1 (length msgs))) /\
  (forall (A : Type) (msgs : list (A * Ping)),
     Z.of_nat (length msgs) = 2 ^ 64 ->
     fst (run_mailbox Release (Some (mkPingActor 0)) msgs) = Some (mkPingActor 0) /\
     (exists earlier,
        totals (snd (run_mailbox Release (Some (mkPingActor 0)) msgs)) = app earlier [u64_max; 0]) /\
     ~ StronglySorted Z.lt (totals (snd (run_mailbox Release (Some (mkPingActor 0)) msgs)))) /\
  (forall (c : Z) (m : Ping),
     0 <= c <= u64_max -> handle Debug (mkPingActor c) m = None <-> c = u64_max) /\
  (forall (A : Type) (c : Z) (l : list (A * Ping)) (x : A * Ping) (rest : list (A * Ping)),
     0 <= c -> c + Z.of_nat (length l) = u64_max ->
     Forall (fun r => r <> AskErr) (snd (run_mailbox Debug (Some (mkPingActor c)) l)) /\
     run_mailbox Debug (Some (mkPingActor c)) (app l (x :: rest)) =
       (None, app (snd (run_mailbox Debug (Some (mkPingActor c)) l))
                  (repeat AskErr (S (length rest))))).
Proof.
  split; [| split; [| split]].
  - intros A c msgs Hc. apply run_mailbox_release, Hc.
  - intros A msgs Hl.
    destruct (release_wrap_totals msgs Hl) as [H1 [earlier He]].
    split; [exact H1 | split; [exists earlier; exact He |]].
    rewrite He. intros Hs. apply StronglySorted_app_r, StronglySorted_inv in Hs.
    destruct Hs as [_ Hf]. apply Forall_inv in Hf. unfold u64_max in Hf. lia.
  - intros c m Hc. apply handle_debug_none_iff, Hc.
  - intros A c l x rest Hc Hl. apply debug_overflow_run; assumption.
Qed.

(** ** The WebSocket bridge *)

(** C4: a freshly started server answers the text frame
    [{"message":"hi","sequence":42}] with exactly one text frame,
    [{"message":"Pong! Responding to: hi","sequence":42,"total_pings":1}];
    and every reply message is ["Pong! Responding to: "] followed by the
    request's message. *)
Theorem websocket_hi_reply (prof : profile) :
  frames_sent (snd (fst (handle_socket prof (fun _ => true) http_server_initial_actor
                           [RecvOk (MText (json_text "{'message':'hi','sequence':42}"))])))
    = [json_text "{'message':'Pong! Responding to: hi','sequence':42,'total_pings':1}"] /\
  (forall (self self' : PingActor) (msg : Ping) (pong : Pong),
      handle prof self msg = Some (self', pong) ->
      Pong_message pong = "Pong! Responding to: " ++ Ping_message msg).
Proof.
  split.
  - destruct prof; vm_compute; reflexivity.
  - intros self self' msg pong H. unfold handle in H.
    destruct (u64_add_assign prof (ping_count self) 1); [| discriminate].
    injection H as _ <-. reflexivity.
Qed.

Lemma websocket_hi_reply_witness :
  handle Release (mkPingActor 0) (mkPing "hi" 42) =
    Some (mkPingActor 1, mkPong "Pong! Responding to: hi" 42 1) /\
  Pong_message (mkPong "Pong! Responding to: hi" 42 1)
    = "Pong! Responding to: " ++ Ping_message (mkPing "hi" 42).
Proof.
  split; [reflexivity |].
  apply (proj2 (websocket_hi_reply Release) (mkPingActor 0) (mkPingActor 1)).
  reflexivity.
Defined.

(** C6: on any connection, a text frame that is not a valid [Ping] is
    logged and skipped: the actor is not asked, nothing is sent, and the
    loop goes on with the next frames in the same state; a close frame
    ends the loop. *)
Theorem socket_skips_malformed_frames (prof : profile) (send_ok : nat -> bool) (sent : nat)
    (actor : ActorCell) (text : string) (rest : list RecvItem) :
  from_str_Ping text = None ->
  socket_loop prof send_ok sent actor (RecvOk (MText text) :: rest) =
    emit [Log LogParseError] (socket_loop prof send_ok sent actor rest) /\
  socket_loop prof send_ok sent actor (RecvOk MClose :: rest) =
    (actor, [Log LogClientClosed], ExitClose).
Proof.
  intros H. split; [| reflexivity].
  cbn [socket_loop]. rewrite H. reflexivity.
Qed.

Lemma socket_skips_malformed_frames_witness :
  from_str_Ping "hello" = None /\
  socket_loop Release (fun _ => true) 0 http_server_initial_actor
    [RecvOk (MText "hello"); RecvOk (MText (json_text "{'message':'hi','sequence':42}"))] =
    emit [Log LogParseError]
      (socket_loop Release (fun _ => true) 0 http_server_initial_actor
         [RecvOk (MText (json_text "{'message':'hi','sequence':42}"))]) /\
  socket_loop Release (fun _ => true) 0 http_server_initial_actor
    [RecvOk MClose; RecvOk (MText (json_text "{'message':'hi','sequence':42}"))] =
    (http_server_initial_actor, [Log LogClientClosed], ExitClose).
Proof.
  split; [vm_compute; reflexivity |].
  apply socket_skips_malformed_frames. vm_compute. reflexivity.
Defined.

Lemma exit_cause_emit (i : RecvItem) (rest : list RecvItem) (es : list Effect)
    (r : ActorCell * list Effect * LoopExit) :
  i <> RecvOk MClose -> i <> RecvErr ->
  (forall f, ~ In (SendText f false) es) ->
  exit_cause rest r -> exit_cause (i :: rest) (emit es r).
Proof.
  intros Hc He Hs H. destruct r as [[a es'] ex]. unfold emit, exit_cause in *.
  destruct ex.
  - right. exact H.
  - right. exact H.
  - destruct H as [f Hf]. exists f. apply in_or_app. right. exact Hf.
  - destruct H as (H1 & H2 & H3). split; [| split].
    + intros [Hi | Hi]; [congruence | contradiction].
    + intros [Hi | Hi]; [congruence | contradiction].
    + intros f Hf. apply in_app_or in Hf as [Hf | Hf]; [exact (Hs f Hf) | exact (H3 f Hf)].
Qed.

Lemma exit_cause_cons (i : RecvItem) (rest : list RecvItem)
    (r : ActorCell * list Effect * LoopExit) :
  i <> RecvOk MClose -> i <> RecvErr ->
  exit_cause rest r -> exit_cause (i :: rest) r.
Proof.
  intros Hc He H. destruct r as [[a es'] ex]. unfold exit_cause in *.
  destruct ex; try (right; exact H); [exact H |].
  destruct H as (H1 & H2 & H3). split; [| split; [| exact H3]].
  - intros [Hi | Hi]; [congruence | contradiction].
  - intros [Hi | Hi]; [congruence | contradiction].
Qed.

(** Every run of the loop ends for one of four reasons. *)
Lemma socket_loop_exit_cause (prof : profile) (send_ok : nat -> bool)
    (incoming : list RecvItem) :
  forall sent actor, exit_cause incoming (socket_loop prof send_ok sent actor incoming).
Proof.
  induction incoming as [|i rest IH]; intros sent actor.
  - cbn. split; [| split]; [intros [] | intros [] | intros f []].
  - destruct i as [m|]; [| left; reflexivity].
    destruct m as [text| data | data | data |];
      [| | | | left; reflexivity];
      [| cbn [socket_loop];
         apply exit_cause_cons; [discriminate | discriminate | apply IH] ..].
    cbn [socket_loop]. destruct (from_str_Ping text) as [ping|].
    + destruct (ask prof actor ping) as [actor' [pong|]].
      * destruct (send_ok sent).
        -- apply exit_cause_emit; [discriminate | discriminate | | apply IH].
           intros f Hf. cbn in Hf. destruct Hf as [Hf|[Hf|[Hf|[]]]]; discriminate.
        -- cbn. eexists. right. right. left. reflexivity.
      * apply exit_cause_emit; [discriminate | discriminate | | apply IH].
        intros f Hf. cbn in Hf. destruct Hf as [Hf|[Hf|[]]]; discriminate.
    + apply exit_cause_emit; [discriminate | discriminate | | apply IH].
      intros f Hf. cbn in Hf. destruct Hf as [Hf|[]]; discriminate.
Qed.

(** C10: when a well-formed request's [ask] fails, the loop logs the
    error, sends nothing for it and goes on with the following frames, which
    are parsed and forwarded as before (to the actor as the failed [ask] left
    it). The loop exits only on a close frame, a receive error or a failed
    send of a reply frame: axum's [WebSocket] stream yields [None] only
    after it has yielded a close frame or an error, so every incoming
    stream contains one of the two, and the loop never reaches the end of
    the stream. *)
Theorem socket_actor_error_continues (prof : profile) (send_ok : nat -> bool) (sent : nat)
    (actor : ActorCell) (text : string) (ping : Ping) (rest : list RecvItem) :
  from_str_Ping text = Some ping ->
  snd (ask prof actor ping) = AskErr ->
  socket_loop prof send_ok sent actor (RecvOk (MText text) :: rest) =
    emit [Log (LogReceivedPing (Ping_sequence ping)); Log LogActorError]
      (socket_loop prof send_ok sent (fst (ask prof actor ping)) rest) /\
  (forall incoming,
     In (RecvOk MClose) incoming \/ In RecvErr incoming ->
     exit_cause incoming (socket_loop prof send_ok sent actor incoming) /\
     snd (socket_loop prof send_ok sent actor incoming) <> ExitStreamEnd).
Proof.
  intros Hp Ha. split.
  - cbn [socket_loop]. rewrite Hp.
    destruct (ask prof actor ping) as [actor' r]. cbn [snd] in Ha. subst r. reflexivity.
  - intros incoming Hin.
    pose proof (socket_loop_exit_cause prof send_ok incoming sent actor) as He.
    destruct (socket_loop prof send_ok sent actor incoming) as [[a es] ex].
    split; [exact He |]. cbn [snd]. intros ->.
    destruct He as (H1 & H2 & _). destruct Hin; contradiction.
Qed.

(** A debug build whose counter is at [2^64 - 1]: the handler panics, the
    [ask] fails, and the next frame is still read (the stopped actor fails
    it as well); the following close frame ends the loop. *)
Lemma socket_actor_error_continues_witness :
  from_str_Ping (json_text "{'message':'hi','sequence':42}") = Some (mkPing "hi" 42) /\
  snd (ask Debug (Some (mkPingActor u64_max)) (mkPing "hi" 42)) = AskErr /\
  (In (RecvOk MClose)
     [RecvOk (MText (json_text "{'message':'hi','sequence':42}"));
      RecvOk (MText (json_text "{'message':'again','sequence':43}")); RecvOk MClose] /\
   snd (socket_loop Debug (fun _ => true) 0 (Some (mkPingActor u64_max))
     [RecvOk (MText (json_text "{'message':'hi','sequence':42}"));
      RecvOk (MText (json_text "{'message':'again','sequence':43}")); RecvOk MClose])
   = ExitClose) /\
  (socket_loop Debug (fun _ => true) 0 (Some (mkPingActor u64_max))
     [RecvOk (MText (json_text "{'message':'hi','sequence':42}"));
      RecvOk (MText (json_text "{'message':'again','sequence':43}")); RecvOk MClose] =
   emit [Log (LogReceivedPing 42); Log LogActorError]
     (socket_loop Debug (fun _ => true) 0 (fst (ask Debug (Some (mkPingActor u64_max))
                                                   (mkPing "hi" 42)))
        [RecvOk (MText (json_text "{'message':'again','sequence':43}")); RecvOk MClose]) /\
   (forall incoming,
      In (RecvOk MClose) incoming \/ In RecvErr incoming ->
      exit_cause incoming
        (socket_loop Debug (fun _ => true) 0 (Some (mkPingActor u64_max)) incoming) /\
      snd (socket_loop Debug (fun _ => true) 0 (Some (mkPingActor u64_max)) incoming)
        <> ExitStreamEnd)).
Proof.
  split; [vm_compute; reflexivity |]. split; [reflexivity |].
  split; [split; [cbn; right; right; left; reflexivity | vm_compute; reflexivity] |].
  apply (socket_actor_error_continues Debug (fun _ => true) 0 (Some (mkPingActor u64_max))
           (json_text "{'message':'hi','sequence':42}") (mkPing "hi" 42));
    [vm_compute; reflexivity | reflexivity].
Defined.

(** ** Remote identity and peer-to-peer settings *)

(** C7: the remote identifier of the handler is
    [ping_pong_app::PingActor] and its message id is
    [a1b2c3d4-e5f6-7890-abcd-ef1234567890]; the server registers and the
    client looks up the same identity, both taken from ping-common. *)
Theorem remote_identity_shared :
  cli_server_registered_identity = cli_client_lookup_identity /\
  remote_id cli_server_registered_identity = "ping_pong_app::PingActor" /\
  message_id cli_server_registered_identity = "a1b2c3d4-e5f6-7890-abcd-ef1234567890".
Proof. repeat split. Qed.

(** C8: the server and the client both set a request timeout of 120
    seconds and an idle-connection timeout of 600 seconds. *)
Theorem p2p_timeouts :
  request_timeout_secs cli_server_config = 120 /\
  idle_connection_timeout_secs cli_server_config = 600 /\
  request_timeout_secs cli_client_config = 120 /\
  idle_connection_timeout_secs cli_client_config = 600.
Proof. repeat split. Qed.

(** ** JSON round trip *)

Lemma string_app_assoc (a b c : string) : (a ++ b) ++ c = a ++ (b ++ c).
Proof. induction a as [|x a IH]; simpl; [reflexivity | rewrite IH; reflexivity]. Qed.

(** Reading back one escaped byte gives the byte. *)
Lemma parse_string_escape_char (c : ascii) (t : string) :
  parse_string (escape_char c ++ t) = prepend (String c EmptyString) (parse_string t).
Proof. destruct c as [[] [] [] [] [] [] [] []]; reflexivity. Qed.

Lemma parse_string_escape_body (m rest : string) :
  parse_string (escape_body m ++ String dq rest) = Some (m, rest).
Proof.
  induction m as [|c m IH]; [reflexivity |].
  cbn [escape_body]. rewrite string_app_assoc, parse_string_escape_char, IH.
  reflexivity.
Qed.

Lemma json_string_app (s t : string) :
  json_string s ++ t = String dq (escape_body s ++ String dq t).
Proof. unfold json_string. cbn [append]. rewrite string_app_assoc. reflexivity. Qed.

Lemma json_key_app (k t : string) :
  json_key k ++ t = String dq (escape_body k ++ String dq (String ":" t)).
Proof. unfold json_key. rewrite string_app_assoc, json_string_app. reflexivity. Qed.

Lemma parse_value_string (f : nat) (s rest : string) :
  parse_value (S f) (String dq (escape_body s ++ String dq rest)) = Some (JString s, rest).
Proof.
  change (parse_value (S f) (String dq (escape_body s ++ String dq rest)))
    with (match parse_string (escape_body s ++ String dq rest) with
          | Some (str, r') => Some (JString str, r')
          | None => None
          end).
  rewrite parse_string_escape_body. reflexivity.
Qed.

(** *** Decimal digits *)

Lemma digit_cases (d : Z) :
  0 <= d <= 9 ->
  d = 0 \/ d = 1 \/ d = 2 \/ d = 3 \/ d = 4 \/ d = 5 \/ d = 6 \/ d = 7 \/ d = 8 \/ d = 9.
Proof. lia. Qed.

Lemma digit_char_is_digit (d : Z) :
  0 <= d <= 9 -> is_digit (digit_char d) = true /\ digit_val (digit_char d) = d.
Proof.
  intros Hd. destruct (digit_cases d Hd) as [H|[H|[H|[H|[H|[H|[H|[H|[H|H]]]]]]]]]; subst d;
    split; reflexivity.
Qed.

Lemma digits_aux_spec (fuel : nat) (n : Z) (acc : list Z) :
  0 <= n < 10 ^ (Z.of_nat fuel + 1) ->
  exists d ds,
    digits_aux fuel n acc = d :: app ds acc /\
    0 <= d <= 9 /\ (0 < n -> 0 < d) /\
    Forall (fun x => 0 <= x <= 9) ds /\ fold_left dec_step ds d = n.
Proof.
  revert n acc. induction fuel as [|fuel IH]; intros n acc Hn.
  - exists n, []. cbn in Hn |- *. repeat split; try lia. constructor.
  - cbn [digits_aux]. destruct (n <? 10) eqn:E.
    + apply Z.ltb_lt in E. exists n, []. repeat split; try lia. constructor.
    + apply Z.ltb_ge in E.
      destruct (IH (n / 10) (n mod 10 :: acc)) as (d & ds & H1 & H2 & H3 & H4 & H5).
      { split; [apply Z.div_pos; lia |].
        apply Z.div_lt_upper_bound; [lia |].
        rewrite Nat2Z.inj_succ, <- Z.add_1_r, Z.pow_add_r in Hn by lia. lia. }
      
      exists d, (app ds [n mod 10]). repeat split.
      * rewrite H1, <- app_assoc. reflexivity.
      * lia.
      * lia.
      * intros _. apply H3. apply Z.div_str_pos. lia.
      * apply Forall_app. split; [exact H4 |]. constructor; [| constructor].
        pose proof (Z.mod_pos_bound n 10). lia.
      * rewrite fold_left_app, H5. cbn. unfold dec_step.
        rewrite (Z.div_mod n 10) at 3 by lia. lia.
Qed.

Lemma u64_digits_spec (n : Z) :
  0 <= n <= u64_max ->
  exists d ds,
    u64_digits n = d :: ds /\ 0 <= d <= 9 /\ (0 < n -> 0 < d) /\
    Forall (fun x => 0 <= x <= 9) ds /\ fold_left dec_step ds d = n.
Proof.
  intros Hn. destruct (digits_aux_spec 20 n []) as (d & ds & H1 & H2).
  { unfold u64_max in Hn. change (Z.of_nat 20 + 1) with 21. lia. }
  
  exists d, ds. rewrite app_nil_r in H1. split; [exact H1 | exact H2].
Qed.

Lemma take_digits_of_digits (ds : list Z) (acc : Z) (rest : string) :
  Forall (fun x => 0 <= x <= 9) ds -> starts_with_digit rest = false ->
  take_digits (string_of_digits ds ++ rest) acc = (fold_left dec_step ds acc, rest).
Proof.
  revert acc. induction ds as [|d ds IH]; intros acc Hds Hr.
  - cbn. destruct rest as [|c r]; [reflexivity |].
    cbn in Hr |- *. rewrite Hr. reflexivity.
  - apply Forall_cons_iff in Hds as [Hd Hds].
    destruct (digit_char_is_digit d Hd) as [E1 E2].
    cbn [string_of_digits append take_digits]. rewrite E1, E2. apply IH; assumption.
Qed.

Lemma parse_value_digit (f : nat) (d : Z) (t : string) :
  1 <= d <= 9 ->
  parse_value (S f) (String (digit_char d) t) =
  let (v, r1) := take_digits t d in
  match parse_frac_exp r1 with
  | Some (fe, r') => Some (JNumber false v fe, r')
  | None => None
  end.
Proof.
  intros Hd. destruct (digit_cases d ltac:(lia)) as [H|[H|[H|[H|[H|[H|[H|[H|[H|H]]]]]]]]];
    subst d; try lia; reflexivity.
Qed.

(** A [u64] written by [itoa] and followed by a comma or a closing brace
    reads back as itself. *)
Lemma parse_value_u64 (f : nat) (n : Z) (c : ascii) (r : string) :
  0 <= n <= u64_max -> c = ","%char \/ c = "}"%char ->
  parse_value (S f) (u64_to_string n ++ String c r) = Some (JNumber false n false, String c r).
Proof.
  intros Hn Hc.
  assert (Hr : starts_with_digit (String c r) = false /\
               parse_frac_exp (String c r) = Some (false, String c r))
    by (destruct Hc; subst c; split; reflexivity).
  destruct (Z.eq_dec n 0) as [-> | Hnz].
  - destruct Hc; subst c; reflexivity.
  - destruct (u64_digits_spec n Hn) as (d & ds & Hu & Hd & Hpos & Hds & Hf).
    unfold u64_to_string. rewrite Hu. cbn [string_of_digits append].
    rewrite parse_value_digit by lia.
    rewrite take_digits_of_digits by (tauto || apply Hr).
    rewrite Hf, (proj2 Hr). reflexivity.
Qed.

Lemma parse_value_object (f : nat) (t : string) :
  parse_value (S f) (String "{" t) = parse_object f t.
Proof. reflexivity. Qed.

Lemma parse_object_members (f : nat) (t : string) :
  parse_object (S f) (String dq t) =
  match parse_members f (String dq t) with
  | Some (ms, r') => Some (JObject ms, r')
  | None => None
  end.
Proof. reflexivity. Qed.

Lemma parse_members_more (f : nat) (k x : string) (v : json) (rest : string) :
  parse_value f x = Some (v, String "," rest) ->
  parse_members (S f) (String dq (escape_body k ++ String dq (String ":" x))) =
  match parse_members f rest with
  | Some (ms, r5) => Some ((k, v) :: ms, r5)
  | None => None
  end.
Proof.
  intros H. simpl. rewrite parse_string_escape_body. simpl. rewrite H. reflexivity.
Qed.

Lemma parse_members_last (f : nat) (k x : string) (v : json) (rest : string) :
  parse_value f x = Some (v, String "}" rest) ->
  parse_members (S f) (String dq (escape_body k ++ String dq (String ":" x))) =
  Some ([(k, v)], rest).
Proof.
  intros H. simpl. rewrite parse_string_escape_body. simpl. rewrite H. reflexivity.
Qed.

Lemma u64_of_json_ok (n : Z) :
  0 <= n <= u64_max -> u64_of_json (JNumber false n false) = Some n.
Proof. intros Hn. unfold u64_of_json. destruct (Z.leb_spec n u64_max); [reflexivity | lia]. Qed.

Lemma parse_Ping_json (f : nat) (p : Ping) :
  0 <= Ping_sequence p <= u64_max ->
  parse_value (S (S (S (S (S (S f)))))) (to_string_Ping p) =
  Some (JObject [("message", JString (Ping_message p));
                 ("sequence", JNumber false (Ping_sequence p) false)], EmptyString).
Proof.
  intros Hq. unfold to_string_Ping.
  rewrite json_string_app, !json_key_app. cbn [append].
  rewrite parse_value_object, parse_object_members.
  erewrite parse_members_more by apply parse_value_string.
  erewrite parse_members_last by (apply parse_value_u64; auto).
  reflexivity.
Qed.

Lemma parse_Pong_json (f : nat) (p : Pong) :
  0 <= Pong_sequence p <= u64_max -> 0 <= Pong_total_pings p <= u64_max ->
  parse_value (S (S (S (S (S (S (S f))))))) (to_string_Pong p) =
  Some (JObject [("message", JString (Pong_message p));
                 ("sequence", JNumber false (Pong_sequence p) false);
                 ("total_pings", JNumber false (Pong_total_pings p) false)], EmptyString).
Proof.
  intros Hq Ht. unfold to_string_Pong.
  rewrite json_string_app, !json_key_app. cbn [append].
  rewrite parse_value_object, parse_object_members.
  erewrite parse_members_more by apply parse_value_string.
  erewrite parse_members_more by (apply parse_value_u64; auto).
  erewrite parse_members_last by (apply parse_value_u64; auto).
  reflexivity.
Qed.

Lemma from_str_fuel (s : string) :
  (2 <= String.length s)%nat ->
  (3 * String.length s + 3 = S (S (S (S (S (S (S (S (S (3 * (String.length s - 2)))))))))))%nat.
Proof. lia. Qed.

Lemma to_string_Ping_length (p : Ping) : (2 <= String.length (to_string_Ping p))%nat.
Proof. unfold to_string_Ping. rewrite json_key_app. cbn [append String.length]. lia. Qed.

Lemma to_string_Pong_length (p : Pong) : (2 <= String.length (to_string_Pong p))%nat.
Proof. unfold to_string_Pong. rewrite json_key_app. cbn [append String.length]. lia. Qed.

Lemma from_str_Ping_to_string (p : Ping) :
  0 <= Ping_sequence p <= u64_max -> from_str_Ping (to_string_Ping p) = Some p.
Proof.
  intros Hq. unfold from_str_Ping, from_str.
  rewrite (from_str_fuel _ (to_string_Ping_length p)), parse_Ping_json by exact Hq.
  cbn [skip_ws Ping_of_json Ping_visit_map String.eqb string_of_json].
  rewrite u64_of_json_ok by exact Hq. destruct p. reflexivity.
Qed.

Lemma from_str_Pong_to_string (p : Pong) :
  0 <= Pong_sequence p <= u64_max -> 0 <= Pong_total_pings p <= u64_max ->
  from_str_Pong (to_string_Pong p) = Some p.
Proof.
  intros Hq Ht. unfold from_str_Pong, from_str.
  rewrite (from_str_fuel _ (to_string_Pong_length p)), parse_Pong_json by assumption.
  cbn [skip_ws Pong_of_json Pong_visit_map String.eqb string_of_json].
  rewrite !u64_of_json_ok by assumption. destruct p. reflexivity.
Qed.

(** C5: for any request and reply whose integer fields are [u64] values,
    [serde_json::to_string] followed by [serde_json::from_str] gives the
    value back, and the reply's JSON object carries its counter under the
    key total_pings, after the keys message and sequence. *)
Theorem json_round_trip (p : Ping) (r : Pong)
  (Hp : 0 <= Ping_sequence p <= u64_max)
  (Hq : 0 <= Pong_sequence r <= u64_max)
  (Ht : 0 <= Pong_total_pings r <= u64_max) :
  from_str_Ping (to_string_Ping p) = Some p /\
  from_str_Pong (to_string_Pong r) = Some r /\
  parse_value (3 * String.length (to_string_Pong r) + 3)%nat (to_string_Pong r) =
  Some (JObject [("message", JString (Pong_message r));
                 ("sequence", JNumber false (Pong_sequence r) false);
                 ("total_pings", JNumber false (Pong_total_pings r) false)], EmptyString).
Proof.
  split; [apply from_str_Ping_to_string; exact Hp |].
  split; [apply from_str_Pong_to_string; assumption |].
  rewrite (from_str_fuel _ (to_string_Pong_length r)).
  apply parse_Pong_json; assumption.
Qed.

Lemma json_round_trip_witness :
  (0 <= 42 <= u64_max /\ 0 <= 42 <= u64_max /\ 0 <= 1 <= u64_max) /\
  from_str_Ping (to_string_Ping (mkPing "hi" 42)) = Some (mkPing "hi" 42) /\
  from_str_Pong (to_string_Pong (mkPong "Pong! Responding to: hi" 42 1)) =
    Some (mkPong "Pong! Responding to: hi" 42 1) /\
  parse_value (3 * String.length (to_string_Pong (mkPong "Pong! Responding to: hi" 42 1)) + 3)%nat
    (to_string_Pong (mkPong "Pong! Responding to: hi" 42 1)) =
  Some (JObject [("message", JString "Pong! Responding to: hi");
                 ("sequence", JNumber false 42 false);
                 ("total_pings", JNumber false 1 false)], EmptyString).
Proof.
  split; [unfold u64_max; lia |].
  apply (json_round_trip (mkPing "hi" 42) (mkPong "Pong! Responding to: hi" 42 1));
    cbn [Ping_sequence Pong_sequence Pong_total_pings]; unfold u64_max; lia.
Defined.

(** ** What the parser returns *)

Lemma take_digits_nonneg (s : string) (acc : Z) :
  0 <= acc -> 0 <= fst (take_digits s acc).
Proof.
  revert acc. induction s as [|c r IH]; intros acc Hacc; [exact Hacc |].
  cbn [take_digits]. destruct (is_digit c) eqn:Hd; [| exact Hacc].
  apply IH. unfold is_digit, digit_val in *.
  apply Bool.andb_true_iff in Hd as [H1 H2]. apply Z.leb_le in H1. lia.
Qed.

Lemma parse_unsigned_nonneg (neg : bool) (s : string) (v : json) (r : string) :
  parse_unsigned neg s = Some (v, r) -> top_nonneg v.
Proof.
  unfold parse_unsigned. destruct s as [|c t]; [discriminate |].
  destruct (Ascii.eqb c "0").
  - destruct (starts_with_digit t); [discriminate |].
    destruct (parse_frac_exp t) as [[fe r']|]; [| discriminate].
    intros H. injection H as <- _. cbn. lia.
  - destruct (is_digit c) eqn:Hd; [| discriminate].
    pose proof (take_digits_nonneg t (digit_val c)) as Hn.
    destruct (take_digits t (digit_val c)) as [n r1].
    destruct (parse_frac_exp r1) as [[fe r']|]; [| discriminate].
    intros H. injection H as <- _. cbn. apply Hn.
    unfold is_digit, digit_val in *.
    apply Bool.andb_true_iff in Hd as [H1 H2]. apply Z.leb_le in H1. lia.
Qed.

Ltac inv_some :=
  repeat match goal with
  | H : Some _ = Some _ |- _ => injection H; clear H; intros; subst
  | H : None = Some _ |- _ => discriminate H
  | H : _ = _ |- _ => discriminate H
  | H : context [match ?x with _ => _ end] |- _ => destruct x eqn:?
  end.

Lemma parse_object_shape (f : nat) (t : string) (v : json) (r : string) :
  parse_object f t = Some (v, r) -> exists ms, v = JObject ms.
Proof. intros H. destruct f; cbn [parse_object] in H; inv_some; eauto. Qed.

Lemma parse_array_shape (f : nat) (t : string) (v : json) (r : string) :
  parse_array f t = Some (v, r) -> exists vs, v = JArray vs.
Proof. intros H. destruct f; cbn [parse_array] in H; inv_some; eauto. Qed.

Lemma parse_value_top_nonneg (f : nat) (s : string) (v : json) (r : string) :
  parse_value f s = Some (v, r) -> top_nonneg v.
Proof.
  intros H. destruct f; cbn [parse_value] in H; inv_some; try exact I.
  all: first
    [ destruct (parse_object_shape _ _ _ _ H) as [ms ->]; exact I
    | destruct (parse_array_shape _ _ _ _ H) as [vs ->]; exact I
    | unfold parse_number in H; inv_some; eapply parse_unsigned_nonneg; eassumption ].
Qed.

Lemma parse_members_nonneg (f : nat) :
  forall s ms r, parse_members f s = Some (ms, r) ->
  Forall (fun kv => top_nonneg (snd kv)) ms.
Proof.
  induction f as [|f IH]; intros s ms r H; cbn [parse_members] in H; inv_some.
  all: repeat constructor; try (eapply parse_value_top_nonneg; eassumption).
  all: eapply IH; eassumption.
Qed.

Lemma parse_elements_nonneg (f : nat) :
  forall s vs r, parse_elements f s = Some (vs, r) -> Forall top_nonneg vs.
Proof.
  induction f as [|f IH]; intros s vs r H; cbn [parse_elements] in H; inv_some.
  all: repeat constructor; try (eapply parse_value_top_nonneg; eassumption).
  all: eapply IH; eassumption.
Qed.

Lemma parse_value_fields_nonneg (f : nat) (s : string) (v : json) (r : string) :
  parse_value f s = Some (v, r) -> fields_nonneg v.
Proof.
  intros H. destruct f; cbn [parse_value] in H; inv_some; try exact I.
  all: try (unfold parse_number, parse_unsigned in H; inv_some; exact I).
  - destruct f; cbn [parse_object] in H; inv_some; cbn;
      [constructor | eapply parse_members_nonneg; eassumption].
  - destruct f; cbn [parse_array] in H; inv_some; cbn;
      [constructor | eapply parse_elements_nonneg; eassumption].
Qed.

Lemma u64_of_json_range (v : json) (q : Z) :
  top_nonneg v -> u64_of_json v = Some q -> 0 <= q <= u64_max.
Proof.
  intros Hv H. unfold u64_of_json in H.
  destruct v as [| | [|] n [|] | | |]; try discriminate.
  destruct (Z.leb_spec n u64_max); [| discriminate]. injection H as <-. cbn in Hv. lia.
Qed.

Lemma Ping_visit_map_range (ms : list (string * json)) :
  Forall (fun kv => top_nonneg (snd kv)) ms ->
  forall m q p, (forall x, q = Some x -> 0 <= x <= u64_max) ->
  Ping_visit_map ms m q = Some p -> 0 <= Ping_sequence p <= u64_max.
Proof.
  induction ms as [|[k v] ms IH]; intros Hms m q p Hq H.
  - cbn in H. destruct m, q; try discriminate. injection H as <-. apply Hq. reflexivity.
  - apply Forall_cons_iff in Hms as [Hv Hms]. cbn [Ping_visit_map] in H.
    destruct (String.eqb k "message"); [| destruct (String.eqb k "sequence")].
    + destruct m; [discriminate |]. destruct (string_of_json v); [| discriminate].
      eapply IH; eassumption.
    + destruct q; [discriminate |]. destruct (u64_of_json v) eqn:Hu; [| discriminate].
      eapply IH; [eassumption | | eassumption].
      intros x Hx. injection Hx as <-. eapply u64_of_json_range; eassumption.
    + eapply IH; eassumption.
Qed.

(** Every request the server decodes carries a [u64] sequence. *)
Lemma from_str_Ping_range (text : string) (p : Ping) :
  from_str_Ping text = Some p -> 0 <= Ping_sequence p <= u64_max.
Proof.
  unfold from_str_Ping, from_str.
  destruct (parse_value _ text) as [[v r]|] eqn:Hp; [| discriminate].
  destruct (skip_ws r); [| discriminate].
  pose proof (parse_value_fields_nonneg _ _ _ _ Hp) as Hf.
  destruct v as [| | | | vs | ms]; try discriminate; cbn in Hf |- *.
  - destruct vs as [|m [|q [|]]]; try discriminate.
    apply Forall_cons_iff in Hf as [_ Hf]. apply Forall_cons_iff in Hf as [Hq _].
    destruct (string_of_json m); [| discriminate].
    destruct (u64_of_json q) eqn:Hu; [| discriminate].
    intros H. injection H as <-. cbn. eapply u64_of_json_range; eassumption.
  - apply Ping_visit_map_range; [exact Hf | discriminate].
Qed.

(** ** More about the WebSocket loop *)

Lemma In_emit (x : Effect) (es : list Effect) (r : ActorCell * list Effect * LoopExit) :
  In x (snd (fst (emit es r))) <-> In x es \/ In x (snd (fst r)).
Proof. destruct r as [[a es'] ex]. cbn. apply in_app_iff. Qed.

Lemma frames_sent_app (es es' : list Effect) :
  frames_sent (app es es') = app (frames_sent es) (frames_sent es').
Proof.
  induction es as [|e es IH]; [reflexivity |].
  destruct e as [? | f [|]]; cbn; rewrite ?IH; reflexivity.
Qed.

Lemma ask_in_range (prof : profile) (c : ActorCell) (m : Ping) :
  cell_in_range c ->
  cell_in_range (fst (ask prof c m)) /\
  forall pong, snd (ask prof c m) = AskOk pong ->
    Pong_sequence pong = Ping_sequence m /\ 0 <= Pong_total_pings pong <= u64_max.
Proof.
  intros Hc. destruct c as [[n]|]; [| split; [exact I | discriminate]].
  cbn in Hc. unfold ask, handle, u64_add_assign. cbn [ping_count].
  destruct prof.
  - destruct (Z.leb_spec (n + 1) u64_max); cbn.
    + unfold u64_max in *. split; [lia |]. intros pong Hp. injection Hp as <-. cbn. split; [reflexivity | lia].
    + split; [exact I | discriminate].
  - cbn [fst snd cell_in_range ping_count]. pose proof (Z.mod_pos_bound (n + 1) (2 ^ 64) ltac:(lia)).
    unfold u64_max. split; [lia |].
    intros pong Hp. injection Hp as <-. cbn [Pong_sequence Pong_total_pings]. split; [reflexivity | lia].
Qed.

Lemma socket_loop_replies (prof : profile) (send_ok : nat -> bool) (incoming : list RecvItem) :
  forall sent actor, cell_in_range actor ->
  forall f ok, In (SendText f ok) (snd (fst (socket_loop prof send_ok sent actor incoming))) ->
  exists pong, f = to_string_Pong pong /\
    0 <= Pong_sequence pong <= u64_max /\ 0 <= Pong_total_pings pong <= u64_max.
Proof.
  induction incoming as [|i rest IH]; intros sent actor Hac f ok H; [destruct H |].
  destruct i as [m|]; [| destruct H as [H|[]]; discriminate].
  destruct m as [text| | | |]; cbn [socket_loop] in H;
    [| eapply IH; eassumption .. | destruct H as [H|[]]; discriminate].
  destruct (from_str_Ping text) as [ping|] eqn:Hp.
  - pose proof (from_str_Ping_range _ _ Hp) as Hseq.
    pose proof (ask_in_range prof actor ping Hac) as [Hc' Hpong].
    destruct (ask prof actor ping) as [actor' [pong|]]; cbn [fst snd] in Hc', Hpong.
    + destruct (Hpong pong eq_refl) as [Hs Ht].
      assert (Hthis : SendText (to_string_Pong pong) true = SendText f ok \/
                      SendText (to_string_Pong pong) false = SendText f ok ->
                      exists pong', f = to_string_Pong pong' /\
                        0 <= Pong_sequence pong' <= u64_max /\
                        0 <= Pong_total_pings pong' <= u64_max).
      { intros [E|E]; injection E as <- _; exists pong; rewrite Hs; auto. }
      destruct (send_ok sent).
      * apply In_emit in H as [H|H]; [| eapply IH; eassumption].
        cbn [In] in H. destruct H as [H|[H|[H|[]]]]; try discriminate. auto.
      * cbn [fst snd In] in H. destruct H as [H|[H|[H|[]]]]; try discriminate. auto.
    + apply In_emit in H as [H|H]; [| eapply IH; eassumption].
      cbn [In] in H. destruct H as [H|[H|[]]]; discriminate.
  - apply In_emit in H as [H|H]; [| eapply IH; eassumption].
    cbn [In] in H. destruct H as [H|[]]; discriminate.
Qed.

Lemma handle_no_overflow_ask (prof : profile) (c : Z) (m : Ping) :
  0 <= c < u64_max ->
  ask prof (Some (mkPingActor c)) m =
  (Some (mkPingActor (c + 1)),
   AskOk (mkPong ("Pong! Responding to: " ++ Ping_message m) (Ping_sequence m) (c + 1))).
Proof. intros Hc. unfold ask. rewrite handle_no_overflow by exact Hc. reflexivity. Qed.

Lemma socket_loop_consecutive (prof : profile) (send_ok : nat -> bool) (incoming : list RecvItem) :
  forall sent c, 0 <= c -> c + Z.of_nat (length incoming) <= u64_max ->
  exists ps,
    frames_sent (snd (fst (socket_loop prof send_ok sent (Some (mkPingActor c)) incoming)))
      = map to_string_Pong ps /\
    map Pong_total_pings ps = map (fun i : nat => c + Z.of_nat i) (seq 1 (length ps)).
Proof.
  induction incoming as [|i rest IH]; intros sent c Hc Hlen; [exists []; split; reflexivity |].
  cbn [length] in Hlen.
  assert (Hrest : c + Z.of_nat (length rest) <= u64_max) by lia.
  destruct i as [m|]; [| exists []; split; reflexivity].
  destruct m as [text| | | |]; cbn [socket_loop];
    [| apply IH; assumption .. | exists []; split; reflexivity].
  destruct (from_str_Ping text) as [ping|].
  - rewrite (handle_no_overflow_ask prof c ping) by lia.
    destruct (send_ok sent).
    + destruct (IH (S sent) (c + 1) ltac:(lia) ltac:(lia)) as (ps & E1 & E2).
      destruct (socket_loop prof send_ok (S sent) (Some (mkPingActor (c + 1))) rest)
        as [[a es] ex].
      cbn [emit fst snd] in E1 |- *. rewrite frames_sent_app, E1.
      exists (mkPong ("Pong! Responding to: " ++ Ping_message ping) (Ping_sequence ping) (c + 1)
              :: ps).
      split; [reflexivity |].
      cbn [map length seq]. rewrite E2, map_seq_shift. cbn [Pong_total_pings]. f_equal; lia.
    + exists []. split; reflexivity.
  - destruct (IH sent c Hc Hrest) as (ps & E1 & E2).
    destruct (socket_loop prof send_ok sent (Some (mkPingActor c)) rest) as [[a es] ex].
    cbn [emit fst snd] in E1 |- *. exists ps. split; [exact E1 | exact E2].
Qed.

Lemma fst_emit (es : list Effect) (r : ActorCell * list Effect * LoopExit) :
  fst (fst (emit es r)) = fst (fst r) /\ snd (emit es r) = snd r.
Proof. destruct r as [[a es'] ex]. split; reflexivity. Qed.

Lemma socket_loop_stopped (prof : profile) (send_ok : nat -> bool) (incoming : list RecvItem) :
  forall sent,
  fst (fst (socket_loop prof send_ok sent None incoming)) = None /\
  forall f ok, ~ In (SendText f ok) (snd (fst (socket_loop prof send_ok sent None incoming))).
Proof.
  induction incoming as [|i rest IH]; intros sent; [split; [reflexivity | intros f ok []] |].
  destruct i as [m|];
    [| split; [reflexivity | intros f ok [H|[]]; discriminate]].
  destruct m as [text| | | |]; cbn [socket_loop]; [| apply IH .. |];
    [| split; [reflexivity | intros f ok [H|[]]; discriminate]].
  destruct (from_str_Ping text) as [ping|]; cbn [ask].
  - split; [rewrite (proj1 (fst_emit _ _)); apply IH |].
    intros f ok H. apply In_emit in H as [H|H]; [| exact (proj2 (IH sent) f ok H)].
    destruct H as [H|[H|[]]]; discriminate.
  - split; [rewrite (proj1 (fst_emit _ _)); apply IH |].
    intros f ok H. apply In_emit in H as [H|H]; [| exact (proj2 (IH sent) f ok H)].
    destruct H as [H|[]]; discriminate.
Qed.

Lemma socket_loop_filter_ignored (prof : profile) (send_ok : nat -> bool)
    (incoming : list RecvItem) :
  forall sent actor,
  socket_loop prof send_ok sent actor incoming =
  socket_loop prof send_ok sent actor (filter (fun i => negb (ignored_item i)) incoming).
Proof.
  induction incoming as [|i rest IH]; intros sent actor; [reflexivity |].
  destruct i as [m|]; [| reflexivity].
  destruct m as [text| | | |]; cbn [filter ignored_item negb socket_loop]; [| apply IH .. | reflexivity].
  destruct (from_str_Ping text) as [ping|]; [| rewrite IH; reflexivity].
  destruct (ask prof actor ping) as [actor' [pong|]]; [| rewrite IH; reflexivity].
  destruct (send_ok sent); [rewrite IH |]; reflexivity.
Qed.

Lemma emit_failed_send_last (es : list Effect) (r : ActorCell * list Effect * LoopExit) :
  no_failed_send es -> failed_send_last r -> failed_send_last (emit es r).
Proof.
  destruct r as [[a es'] ex]. unfold emit, failed_send_last.
  intros Hes [[H1 H2] | (es'' & f & -> & H1 & H2)].
  - left. split; [| exact H2].
    intros f Hf. apply in_app_or in Hf as [Hf|Hf]; [exact (Hes f Hf) | exact (H1 f Hf)].
  - right. exists (app es es''), f. split; [rewrite app_assoc; reflexivity |].
    split; [| exact H2].
    intros g Hg. apply in_app_or in Hg as [Hg|Hg]; [exact (Hes g Hg) | exact (H1 g Hg)].
Qed.

Lemma socket_loop_failed_send_last (prof : profile) (send_ok : nat -> bool)
    (incoming : list RecvItem) :
  forall sent actor, failed_send_last (socket_loop prof send_ok sent actor incoming).
Proof.
  induction incoming as [|i rest IH]; intros sent actor.
  { left. split; [intros f [] | discriminate]. }
  destruct i as [m|];
    [| left; split; [intros f [H|[]]; discriminate | discriminate]].
  destruct m as [text| | | |]; cbn [socket_loop]; [| apply IH .. |];
    [| left; split; [intros f [H|[]]; discriminate | discriminate]].
  destruct (from_str_Ping text) as [ping|];
    [| apply emit_failed_send_last; [intros f [H|[]]; discriminate | apply IH]].
  destruct (ask prof actor ping) as [actor' [pong|]];
    [| apply emit_failed_send_last; [intros f [H|[H|[]]]; discriminate | apply IH]].
  destruct (send_ok sent).
  - apply emit_failed_send_last; [intros f [H|[H|[H|[]]]]; discriminate | apply IH].
  - right. exists [Log (LogReceivedPing (Ping_sequence ping)); Log (LogSendingPong (Pong_sequence pong))].
    exists (to_string_Pong pong). split; [reflexivity |].
    split; [intros f [H|[H|[]]]; discriminate | reflexivity].
Qed.

(** ** Further properties of the WebSocket bridge *)

(** Every text frame [handle_socket] hands to [socket.send] is the JSON of a
    [Pong] that [serde_json::from_str::<Pong>] reads back, whatever the
    client sent, provided the shared actor's counter is a [u64] value when
    the connection starts. *)
Theorem socket_replies_decode (prof : profile) (send_ok : nat -> bool) (actor : ActorCell)
    (incoming : list RecvItem) (f : string) (ok : bool) :
  cell_in_range actor ->
  In (SendText f ok) (snd (fst (handle_socket prof send_ok actor incoming))) ->
  exists pong, f = to_string_Pong pong /\ from_str_Pong f = Some pong.
Proof.
  intros Hac H. unfold handle_socket in H. apply In_emit in H as [H|H].
  - destruct H as [H|[]]; discriminate.
  - destruct (socket_loop_replies prof send_ok incoming 0 actor Hac f ok H)
      as (pong & -> & Hs & Ht).
    exists pong. split; [reflexivity |]. apply from_str_Pong_to_string; assumption.
Qed.

Lemma socket_replies_decode_witness :
  exists pong,
    json_text "{'message':'Pong! Responding to: hi','sequence':42,'total_pings':1}"
      = to_string_Pong pong /\
    from_str_Pong (json_text "{'message':'Pong! Responding to: hi','sequence':42,'total_pings':1}")
      = Some pong.
Proof.
  apply (socket_replies_decode Release (fun _ => true) http_server_initial_actor
           [RecvOk (MText (json_text "{'message':'hi','sequence':42}"))]
           (json_text "{'message':'Pong! Responding to: hi','sequence':42,'total_pings':1}")
           true).
  - cbn. unfold u64_max. lia.
  - vm_compute. do 3 right. left. reflexivity.
Defined.

(** While one connection is the only client of an actor whose counter
    starts at [c] (and cannot overflow within the frames it receives), the
    reply frames it receives carry the totals [c + 1], [c + 2], ... in
    order, with no gap. *)
Theorem socket_reply_totals_consecutive (prof : profile) (send_ok : nat -> bool) (c : Z)
    (incoming : list RecvItem) :
  0 <= c -> c + Z.of_nat (length incoming) <= u64_max ->
  exists ps,
    frames_sent (snd (fst (handle_socket prof send_ok (Some (mkPingActor c)) incoming)))
      = map to_string_Pong ps /\
    map Pong_total_pings ps = map (fun i : nat => c + Z.of_nat i) (seq 1 (length ps)).
Proof.
  intros Hc Hlen. unfold handle_socket.
  destruct (socket_loop_consecutive prof send_ok incoming 0 c Hc Hlen) as (ps & E1 & E2).
  exists ps. split; [| exact E2].
  destruct (socket_loop prof send_ok 0 (Some (mkPingActor c)) incoming) as [[a es] ex].
  exact E1.
Qed.

Lemma socket_reply_totals_consecutive_witness :
  exists ps,
    frames_sent (snd (fst (handle_socket Release (fun _ => true) (Some (mkPingActor 5))
      [RecvOk (MText (json_text "{'message':'a','sequence':1}"));
       RecvOk (MText "junk");
       RecvOk (MText (json_text "{'message':'b','sequence':2}"))])))
      = map to_string_Pong ps /\
    map Pong_total_pings ps = map (fun i : nat => 5 + Z.of_nat i) (seq 1 (length ps)).
Proof.
  apply socket_reply_totals_consecutive; cbn; unfold u64_max; lia.
Defined.

(** Once the actor has stopped (its handler panicked), no connection ever
    gets a reply frame again and the actor stays stopped. *)
Theorem socket_stopped_actor_no_reply (prof : profile) (send_ok : nat -> bool)
    (incoming : list RecvItem) :
  fst (fst (handle_socket prof send_ok None incoming)) = None /\
  forall f ok, ~ In (SendText f ok) (snd (fst (handle_socket prof send_ok None incoming))).
Proof.
  unfold handle_socket. rewrite (proj1 (fst_emit _ _)).
  split; [apply socket_loop_stopped |].
  intros f ok H. apply In_emit in H as [H|H]; [destruct H as [H|[]]; discriminate |].
  exact (proj2 (socket_loop_stopped prof send_ok incoming 0) f ok H).
Qed.

(** Binary, ping and pong frames have no effect on a connection: the run
    is the same as on the stream with them removed. *)
Theorem socket_ignores_control_frames (prof : profile) (send_ok : nat -> bool)
    (actor : ActorCell) (incoming : list RecvItem) :
  handle_socket prof send_ok actor incoming =
  handle_socket prof send_ok actor (filter (fun i => negb (ignored_item i)) incoming).
Proof. unfold handle_socket. rewrite <- socket_loop_filter_ignored. reflexivity. Qed.

(** A failed send ends the connection at once: either no send failed and
    the loop stopped for another reason, or the failed send is the last
    effect of the connection and the reason it stopped. *)
Theorem socket_failed_send_last (prof : profile) (send_ok : nat -> bool)
    (actor : ActorCell) (incoming : list RecvItem) :
  failed_send_last (handle_socket prof send_ok actor incoming).
Proof.
  apply emit_failed_send_last; [intros f [H|[]]; discriminate |].
  apply socket_loop_failed_send_last.
Qed.

(** ** More about the derived [Deserialize] *)

Lemma parse_value_u64_bracket (f : nat) (n : Z) (r : string) :
  0 <= n <= u64_max ->
  parse_value (S f) (u64_to_string n ++ String "]" r) = Some (JNumber false n false, String "]" r).
Proof.
  intros Hn.
  destruct (Z.eq_dec n 0) as [-> | Hnz]; [reflexivity |].
  destruct (u64_digits_spec n Hn) as (d & ds & Hu & Hd & Hpos & Hds & Hf).
  unfold u64_to_string. rewrite Hu. cbn [string_of_digits append].
  rewrite parse_value_digit by lia.
  rewrite take_digits_of_digits by (assumption || reflexivity).
  rewrite Hf. reflexivity.
Qed.

Lemma parse_value_array (f : nat) (t : string) :
  parse_value (S f) (String "[" t) = parse_array f t.
Proof. reflexivity. Qed.

Lemma parse_array_elements (f : nat) (t : string) :
  parse_array (S f) (String dq t) =
  match parse_elements f (String dq t) with
  | Some (vs, r') => Some (JArray vs, r')
  | None => None
  end.
Proof. reflexivity. Qed.

Lemma parse_elements_more (f : nat) (x : string) (v : json) (rest : string) :
  parse_value f x = Some (v, String "," rest) ->
  parse_elements (S f) x =
  match parse_elements f rest with
  | Some (vs, r'') => Some (v :: vs, r'')
  | None => None
  end.
Proof. intros H. cbn [parse_elements]. rewrite H. reflexivity. Qed.

Lemma parse_elements_last (f : nat) (x : string) (v : json) (rest : string) :
  parse_value f x = Some (v, String "]" rest) ->
  parse_elements (S f) x = Some ([v], rest).
Proof. intros H. cbn [parse_elements]. rewrite H. reflexivity. Qed.

Lemma from_str_of_parse {A : Type} (of_json : json -> option A) (s : string) (v : json) :
  (forall f, parse_value (S (S (S (S (S (S (S (S (S f))))))))) s = Some (v, EmptyString)) ->
  (2 <= String.length s)%nat ->
  from_str of_json s = of_json v.
Proof.
  intros H Hl. unfold from_str. rewrite (from_str_fuel s Hl), H. reflexivity.
Qed.

Lemma length_ge2 (c1 c2 : ascii) (t : string) : (2 <= String.length (String c1 (String c2 t)))%nat.
Proof. cbn [String.length]. lia. Qed.

(** A reply frame read as a request: the derived [Deserialize for Ping]
    ignores the unknown key total_pings, so the server would accept any
    of its own reply frames as a request carrying the reply's message and
    sequence. *)
Theorem pong_frame_read_as_ping (p : Pong) :
  0 <= Pong_sequence p <= u64_max -> 0 <= Pong_total_pings p <= u64_max ->
  from_str_Ping (to_string_Pong p) = Some (mkPing (Pong_message p) (Pong_sequence p)).
Proof.
  intros Hq Ht. unfold from_str_Ping.
  rewrite (from_str_of_parse _ _ _ (fun f => parse_Pong_json (S (S f)) p Hq Ht)
             (to_string_Pong_length p)).
  cbn [Ping_of_json Ping_visit_map String.eqb string_of_json].
  rewrite u64_of_json_ok by exact Hq. reflexivity.
Qed.

Lemma pong_frame_read_as_ping_witness :
  (0 <= 42 <= u64_max /\ 0 <= 7 <= u64_max) /\
  from_str_Ping (to_string_Pong (mkPong "Pong! Responding to: hi" 42 7)) =
    Some (mkPing "Pong! Responding to: hi" 42).
Proof.
  split; [unfold u64_max; lia |].
  apply (pong_frame_read_as_ping (mkPong "Pong! Responding to: hi" 42 7));
    cbn [Pong_sequence Pong_total_pings]; unfold u64_max; lia.
Defined.

(** A request frame read as a reply: the derived [Deserialize for Pong]
    requires total_pings, so the JSON of any [Ping] is rejected. *)
Theorem ping_frame_not_a_pong (q : Ping) :
  0 <= Ping_sequence q <= u64_max -> from_str_Pong (to_string_Ping q) = None.
Proof.
  intros Hq. unfold from_str_Pong.
  rewrite (from_str_of_parse _ _ _ (fun f => parse_Ping_json (S (S (S f))) q Hq)
             (to_string_Ping_length q)).
  cbn [Pong_of_json Pong_visit_map String.eqb string_of_json].
  rewrite u64_of_json_ok by exact Hq. reflexivity.
Qed.

Lemma ping_frame_not_a_pong_witness :
  0 <= 42 <= u64_max /\ from_str_Pong (to_string_Ping (mkPing "hi" 42)) = None.
Proof.
  split; [unfold u64_max; lia |].
  apply (ping_frame_not_a_pong (mkPing "hi" 42)). cbn [Ping_sequence]. unfold u64_max. lia.
Defined.

Lemma Ping_visit_map_message_set (ms : list (string * json)) (m : string) (q : option Z) :
  (1 <= key_count "message" ms)%nat -> Ping_visit_map ms (Some m) q = None.
Proof.
  revert q. induction ms as [|[k v] ms IH]; intros q Hc; [cbn in Hc; lia |].
  unfold key_count in *. cbn [filter fst Ping_visit_map] in *.
  destruct (String.eqb k "message"); [reflexivity |].
  destruct (String.eqb k "sequence").
  - destruct q; [reflexivity |]. destruct (u64_of_json v); [apply IH, Hc | reflexivity].
  - apply IH, Hc.
Qed.

Lemma Ping_visit_map_message_twice (ms : list (string * json))
    (m : option string) (q : option Z) :
  (2 <= key_count "message" ms)%nat -> Ping_visit_map ms m q = None.
Proof.
  revert m q. induction ms as [|[k v] ms IH]; intros m q Hc; [cbn in Hc; lia |].
  unfold key_count in *. cbn [filter fst Ping_visit_map] in *.
  destruct (String.eqb k "message").
  - destruct m; [reflexivity |]. destruct (string_of_json v); [| reflexivity].
    apply Ping_visit_map_message_set. unfold key_count. cbn [length] in Hc. lia.
  - destruct (String.eqb k "sequence").
    + destruct q; [reflexivity |]. destruct (u64_of_json v); [apply IH, Hc | reflexivity].
    + apply IH, Hc.
Qed.

(** A request object that names message two or more times is rejected,
    wherever the two keys stand in the object and whatever the other
    members and all the values are: the derived visitor fails on the
    second message key (or earlier). *)
Theorem ping_duplicate_field_rejected (text : string) (ms : list (string * json))
    (r : string) :
  parse_value (3 * String.length text + 3)%nat text = Some (JObject ms, r) ->
  (2 <= key_count "message" ms)%nat ->
  Ping_of_json (JObject ms) = None /\ from_str_Ping text = None.
Proof.
  intros Hp Hc.
  assert (Hv : Ping_of_json (JObject ms) = None)
    by (apply Ping_visit_map_message_twice, Hc).
  split; [exact Hv |].
  unfold from_str_Ping, from_str. rewrite Hp.
  destruct (skip_ws r); [exact Hv | reflexivity].
Qed.

Lemma ping_duplicate_field_rejected_witness :
  parse_value (3 * String.length
                 (json_text "{'sequence':1,'message':'a','x':[true],'message':'b'}") + 3)%nat
    (json_text "{'sequence':1,'message':'a','x':[true],'message':'b'}") =
    Some (JObject [("sequence", JNumber false 1 false); ("message", JString "a");
                   ("x", JArray [JBool true]); ("message", JString "b")], EmptyString) /\
  (2 <= key_count "message"
          [("sequence", JNumber false 1 false); ("message", JString "a");
           ("x", JArray [JBool true]); ("message", JString "b")])%nat /\
  Ping_of_json (JObject [("sequence", JNumber false 1 false); ("message", JString "a");
                         ("x", JArray [JBool true]); ("message", JString "b")]) = None /\
  from_str_Ping (json_text "{'sequence':1,'message':'a','x':[true],'message':'b'}") = None.
Proof.
  assert (Hp : parse_value (3 * String.length
                 (json_text "{'sequence':1,'message':'a','x':[true],'message':'b'}") + 3)%nat
    (json_text "{'sequence':1,'message':'a','x':[true],'message':'b'}") =
    Some (JObject [("sequence", JNumber false 1 false); ("message", JString "a");
                   ("x", JArray [JBool true]); ("message", JString "b")], EmptyString))
    by (vm_compute; reflexivity).
  split; [exact Hp |]. split; [vm_compute; lia |].
  apply (ping_duplicate_field_rejected _ _ _ Hp). vm_compute. lia.
Defined.

(** The order of the keys of a request object does not matter. *)
Theorem ping_fields_any_order (m : string) (q : Z) :
  0 <= q <= u64_max ->
  from_str_Ping ("{" ++ json_key "sequence" ++ u64_to_string q ++ ","
                 ++ json_key "message" ++ json_string m ++ "}") = Some (mkPing m q).
Proof.
  intros Hq. unfold from_str_Ping.
  rewrite (from_str_of_parse _ _
             (JObject [("sequence", JNumber false q false); ("message", JString m)])).
  - cbn [Ping_of_json Ping_visit_map String.eqb string_of_json].
    rewrite u64_of_json_ok by exact Hq. reflexivity.
  - intros f. rewrite !json_string_app, !json_key_app. cbn [append].
    rewrite parse_value_object, parse_object_members.
    erewrite parse_members_more by (apply parse_value_u64; auto).
    erewrite parse_members_last by apply parse_value_string.
    reflexivity.
  - rewrite json_key_app. cbn [append]. apply length_ge2.
Qed.

Lemma ping_fields_any_order_witness :
  0 <= 42 <= u64_max /\
  from_str_Ping ("{" ++ json_key "sequence" ++ u64_to_string 42 ++ ","
                 ++ json_key "message" ++ json_string "hi" ++ "}") = Some (mkPing "hi" 42).
Proof.
  split; [unfold u64_max; lia |].
  apply ping_fields_any_order. unfold u64_max. lia.
Defined.

(** A request may also be sent as the array [[message, sequence]]
    ([visit_seq] of the derived [Deserialize]). *)
Theorem ping_array_form_accepted (m : string) (q : Z) :
  0 <= q <= u64_max ->
  from_str_Ping ("[" ++ json_string m ++ "," ++ u64_to_string q ++ "]") = Some (mkPing m q).
Proof.
  intros Hq. unfold from_str_Ping.
  rewrite (from_str_of_parse _ _ (JArray [JString m; JNumber false q false])).
  - cbn [Ping_of_json string_of_json]. rewrite u64_of_json_ok by exact Hq. reflexivity.
  - intros f. rewrite json_string_app. cbn [append].
    rewrite parse_value_array, parse_array_elements.
    erewrite parse_elements_more by apply parse_value_string.
    erewrite parse_elements_last by (apply parse_value_u64_bracket; auto).
    reflexivity.
  - rewrite json_string_app. cbn [append]. apply length_ge2.
Qed.

Lemma ping_array_form_accepted_witness :
  0 <= 42 <= u64_max /\
  from_str_Ping ("[" ++ json_string "hi" ++ "," ++ u64_to_string 42 ++ "]") = Some (mkPing "hi" 42).
Proof.
  split; [unfold u64_max; lia |].
  apply ping_array_form_accepted. unfold u64_max. lia.
Defined.

(** ** The Wasm client *)

Lemma u64_add_assign_small (prof : profile) (c : Z) :
  0 <= c < u64_max -> u64_add_assign prof c 1 = Some (c + 1).
Proof.
  intros Hc. unfold u64_add_assign. destruct prof.
  - destruct (Z.leb_spec (c + 1) u64_max); [reflexivity | lia].
  - unfold u64_max in Hc. rewrite Z.mod_small by lia. reflexivity.
Qed.

Lemma wasm_frames_shift (c : Z) (start n : nat) :
  map (fun i : nat => to_string_Ping (wasm_ping (c + 1 + Z.of_nat i))) (seq start n) =
  map (fun i : nat => to_string_Ping (wasm_ping (c + Z.of_nat i))) (seq (S start) n).
Proof.
  rewrite <- seq_shift, map_map. apply map_ext. intros i. do 2 f_equal. lia.
Qed.

Lemma wasm_send_pings_from (prof : profile) (oks : list bool) :
  forall c, 0 <= c -> c + Z.of_nat (length oks) <= u64_max ->
  wasm_send_pings prof (mkWasmPingClient c) oks =
  Some (mkWasmPingClient (c + Z.of_nat (length oks)),
        combine (map (fun i : nat => to_string_Ping (wasm_ping (c + Z.of_nat i)))
                     (seq 1 (length oks))) oks).
Proof.
  induction oks as [|ok oks IH]; intros c Hc Hlen.
  - cbn. rewrite Z.add_0_r. reflexivity.
  - cbn [length] in Hlen. cbn [wasm_send_pings]. unfold send_ping.
    cbn [wasm_ping_count]. rewrite u64_add_assign_small by lia.
    rewrite IH by lia.
    cbn [length seq map combine].
    rewrite wasm_frames_shift.
    replace (c + Z.of_nat (S (length oks))) with (c + 1 + Z.of_nat (length oks)) by lia.
    reflexivity.
Qed.

(** A fresh Wasm client that calls [send_ping] [k] times (fewer than
    [2^64]) hands the frames of pings 1, ..., k to the socket, in order,
    whichever sends fail: a failed send still uses up its number. The
    server decodes the [i]-th frame as the ping with sequence [i] and
    message Hello from Wasm #i. *)
Theorem wasm_pings_numbered (prof : profile) (oks : list bool) :
  Z.of_nat (length oks) <= u64_max ->
  exists frames,
    wasm_send_pings prof wasm_new oks =
      Some (mkWasmPingClient (Z.of_nat (length oks)), combine frames oks) /\
    map from_str_Ping frames = map (fun i : nat => Some (wasm_ping (Z.of_nat i))) (seq 1 (length oks)).
Proof.
  intros Hlen.
  exists (map (fun i : nat => to_string_Ping (wasm_ping (0 + Z.of_nat i))) (seq 1 (length oks))).
  split.
  - unfold wasm_new. rewrite wasm_send_pings_from by lia. reflexivity.
  - rewrite map_map. apply map_ext_in. intros i Hi. apply in_seq in Hi.
    apply from_str_Ping_to_string. cbn [wasm_ping Ping_sequence]. lia.
Qed.

Lemma wasm_pings_numbered_witness :
  Z.of_nat (length [true; false; true]) <= u64_max /\
  exists frames,
    wasm_send_pings Debug wasm_new [true; false; true] =
      Some (mkWasmPingClient 3, combine frames [true; false; true]) /\
    map from_str_Ping frames = map (fun i : nat => Some (wasm_ping (Z.of_nat i))) (seq 1 3).
Proof.
  split; [cbn; unfold u64_max; lia |].
  apply (wasm_pings_numbered Debug [true; false; true]). cbn. unfold u64_max. lia.
Defined.

(** End to end: when a Wasm client that has sent [k] pings sends the next
    one, and the server's actor counter is at [c], the server answers with
    one frame, and the client logs PONG #k+1 with the message
    Pong! Responding to: Hello from Wasm #k+1 and the total [c + 1]. *)
Theorem wasm_ping_pong_round_trip (prof : profile) (send_ok : nat -> bool) (k c : Z) :
  0 <= k < u64_max -> 0 <= c < u64_max -> send_ok O = true ->
  exists frame reply,
    send_ping prof (mkWasmPingClient k) true =
      Some (mkWasmPingClient (k + 1), ["Sending PING #" ++ u64_to_string (k + 1)], frame, true) /\
    frames_sent (snd (fst (handle_socket prof send_ok (Some (mkPingActor c))
                             [RecvOk (MText frame)]))) = [reply] /\
    wasm_onmessage (DataString reply) =
      ["PONG #" ++ u64_to_string (k + 1) ++ ": "
       ++ ("Pong! Responding to: " ++ ("Hello from Wasm #" ++ u64_to_string (k + 1)))
       ++ " (total: " ++ u64_to_string (c + 1) ++ ")"].
Proof.
  intros Hk Hc Hs.
  exists (to_string_Ping (wasm_ping (k + 1))).
  exists (to_string_Pong (mkPong ("Pong! Responding to: " ++ Ping_message (wasm_ping (k + 1)))
                                (k + 1) (c + 1))).
  split; [| split].
  - unfold send_ping. cbn [wasm_ping_count]. rewrite u64_add_assign_small by lia. reflexivity.
  - unfold handle_socket. cbn [socket_loop].
    rewrite from_str_Ping_to_string by (cbn [wasm_ping Ping_sequence]; lia).
    rewrite handle_no_overflow_ask by lia. rewrite Hs. reflexivity.
  - cbn [wasm_onmessage]. rewrite from_str_Pong_to_string by (cbn [Pong_sequence Pong_total_pings]; lia).
    reflexivity.
Qed.

Lemma wasm_ping_pong_round_trip_witness :
  (0 <= 0 < u64_max /\ 0 <= 4 < u64_max /\ (fun _ : nat => true) O = true) /\
  exists frame reply,
    send_ping Release (mkWasmPingClient 0) true =
      Some (mkWasmPingClient (0 + 1), ["Sending PING #" ++ u64_to_string (0 + 1)], frame, true) /\
    frames_sent (snd (fst (handle_socket Release (fun _ => true) (Some (mkPingActor 4))
                             [RecvOk (MText frame)]))) = [reply] /\
    wasm_onmessage (DataString reply) =
      ["PONG #" ++ u64_to_string (0 + 1) ++ ": "
       ++ ("Pong! Responding to: " ++ ("Hello from Wasm #" ++ u64_to_string (0 + 1)))
       ++ " (total: " ++ u64_to_string (4 + 1) ++ ")"].
Proof.
  split; [unfold u64_max; repeat split; lia || reflexivity |].
  apply (wasm_ping_pong_round_trip Release (fun _ => true) 0 4);
    [unfold u64_max; lia | unfold u64_max; lia | reflexivity].
Defined.

(** ** The CLI client's ping loop *)

Lemma cli_ping_loop_sent {R : Type} (remote_ask : R -> Ping -> R * AskResult) (is : list Z) :
  forall r, cli_sent_pings (snd (cli_ping_loop remote_ask r is)) = map cli_ping is.
Proof.
  induction is as [|i is IH]; intros r; [reflexivity |].
  cbn [cli_ping_loop]. destruct (remote_ask r (cli_ping i)) as [r' res].
  specialize (IH r'). destruct (cli_ping_loop remote_ask r' is) as [r'' evs].
  cbn [snd] in IH |- *.
  destruct res, (i <? 10); cbn [cli_sent_pings app]; rewrite IH; reflexivity.
Qed.

Lemma cli_ping_loop_sleeps {R : Type} (remote_ask : R -> Ping -> R * AskResult) (is : list Z) :
  forall r, cli_sleeps (snd (cli_ping_loop remote_ask r is)) =
            length (filter (fun i => i <? 10) is).
Proof.
  induction is as [|i is IH]; intros r; [reflexivity |].
  cbn [cli_ping_loop filter]. destruct (remote_ask r (cli_ping i)) as [r' res].
  specialize (IH r'). destruct (cli_ping_loop remote_ask r' is) as [r'' evs].
  cbn [snd] in IH |- *.
  destruct res, (i <? 10); cbn [cli_sleeps app length]; rewrite IH; reflexivity.
Qed.

Lemma cli_ping_loop_blocks {R : Type} (remote_ask : R -> Ping -> R * AskResult)
    (is : list Z) :
  forall r, exists es,
    length es = length is /\ Forall (fun e => cli_is_result e = true) es /\
    snd (cli_ping_loop remote_ask r is) =
      flat_map (fun p => CliSendPing (cli_ping (fst p)) :: snd p ::
                         (if fst p <? 10 then [CliSleep 1] else []))
               (combine is es).
Proof.
  induction is as [|i is IH]; intros r; [exists []; repeat constructor |].
  cbn [cli_ping_loop]. destruct (remote_ask r (cli_ping i)) as [r' res].
  destruct (IH r') as (es & E1 & E2 & E3).
  destruct (cli_ping_loop remote_ask r' is) as [r'' evs].
  cbn [snd] in E3 |- *. subst evs.
  exists ((match res with
           | AskOk pong => CliReceivedPong (Pong_sequence pong) (Pong_total_pings pong)
           | AskErr => CliError
           end) :: es).
  split; [cbn [length]; rewrite E1; reflexivity |].
  split; [constructor; [destruct res; reflexivity | exact E2] |].
  reflexivity.
Qed.

Lemma cli_ping_loop_actor (prof : profile) (is : list Z) :
  forall c, 0 <= c -> c + Z.of_nat (length is) <= u64_max ->
  fst (cli_ping_loop (ask prof) (Some (mkPingActor c)) is)
    = Some (mkPingActor (c + Z.of_nat (length is))) /\
  cli_received (snd (cli_ping_loop (ask prof) (Some (mkPingActor c)) is))
    = combine is (map (fun j : nat => c + Z.of_nat j) (seq 1 (length is))) /\
  cli_errors (snd (cli_ping_loop (ask prof) (Some (mkPingActor c)) is)) = O.
Proof.
  induction is as [|i is IH]; intros c Hc Hlen.
  - cbn. rewrite Z.add_0_r. repeat split.
  - cbn [length] in Hlen. cbn [cli_ping_loop].
    rewrite handle_no_overflow_ask by lia.
    destruct (IH (c + 1) ltac:(lia) ltac:(lia)) as (E1 & E2 & E3).
    destruct (cli_ping_loop (ask prof) (Some (mkPingActor (c + 1))) is) as [r'' evs].
    cbn [fst snd Pong_sequence Pong_total_pings cli_ping Ping_sequence] in E1, E2, E3 |- *.
    split; [rewrite E1; cbn [length]; apply (f_equal (fun z => Some (mkPingActor z))); lia |].
    destruct (i <? 10); cbn [app cli_received cli_errors];
      (split; [| exact E3]); rewrite E2; cbn [length seq map combine];
      rewrite map_seq_shift; reflexivity.
Qed.

(** Whatever the remote actor answers, and whether the asks fail or not,
    the events of the CLI client are, for i = 1, ..., 9 in order: send the
    ping Hello from CLI client #i with sequence [i], log its outcome (a
    reply or an error), sleep one second; then send ping 10 and log its
    outcome, with no sleep after it. So the nine sleeps fall between
    consecutive pings. *)
Theorem cli_ping_sequence_shape {R : Type} (remote_ask : R -> Ping -> R * AskResult) (r : R) :
  exists es e10,
    length es = 9%nat /\ Forall (fun e => cli_is_result e = true) (app es [e10]) /\
    snd (cli_ping_sequence remote_ask r) =
      app (flat_map (fun p => [CliSendPing (cli_ping (fst p)); snd p; CliSleep 1])
                    (combine [1; 2; 3; 4; 5; 6; 7; 8; 9] es))
          [CliSendPing (cli_ping 10); e10].
Proof.
  unfold cli_ping_sequence.
  destruct (cli_ping_loop_blocks remote_ask (map Z.of_nat (seq 1 10)) r)
    as (es & E1 & E2 & E3).
  do 10 (destruct es as [|? es]; [discriminate E1 |]).
  destruct es; [| discriminate E1].
  eexists [_; _; _; _; _; _; _; _; _], _.
  split; [reflexivity |]. split; [exact E2 |].
  rewrite E3. reflexivity.
Qed.

(** Against a [PingActor] whose counter is at [c] and that no other client
    uses meanwhile, the CLI client gets ten replies, the [i]-th with
    sequence [i] and total [c + i], and no error; the counter ends at
    [c + 10]. *)
Theorem cli_client_against_actor (prof : profile) (c : Z) :
  0 <= c -> c + 10 <= u64_max ->
  fst (cli_ping_sequence (ask prof) (Some (mkPingActor c))) = Some (mkPingActor (c + 10)) /\
  cli_received (snd (cli_ping_sequence (ask prof) (Some (mkPingActor c))))
    = map (fun i : nat => (Z.of_nat i, c + Z.of_nat i)) (seq 1 10) /\
  cli_errors (snd (cli_ping_sequence (ask prof) (Some (mkPingActor c)))) = O.
Proof.
  intros Hc Hlen. unfold cli_ping_sequence.
  destruct (cli_ping_loop_actor prof (map Z.of_nat (seq 1 10)) c Hc ltac:(change (Z.of_nat (length (map Z.of_nat (seq 1 10)))) with 10; lia))
    as (E1 & E2 & E3).
  split; [rewrite E1; reflexivity |]. split; [rewrite E2; reflexivity | exact E3].
Qed.

Lemma cli_client_against_actor_witness :
  (0 <= 0 /\ 0 + 10 <= u64_max) /\
  fst (cli_ping_sequence (ask Debug) (Some (mkPingActor 0))) = Some (mkPingActor (0 + 10)) /\
  cli_received (snd (cli_ping_sequence (ask Debug) (Some (mkPingActor 0))))
    = map (fun i : nat => (Z.of_nat i, 0 + Z.of_nat i)) (seq 1 10) /\
  cli_errors (snd (cli_ping_sequence (ask Debug) (Some (mkPingActor 0)))) = O.
Proof.
  split; [unfold u64_max; lia |].
  apply (cli_client_against_actor Debug 0); unfold u64_max; lia.
Defined.

(** ** The browser client *)

Lemma js_quote_unit_escape_char (c : ascii) : js_quote_unit c = escape_char c.
Proof. destruct c as [[] [] [] [] [] [] [] []]; reflexivity. Qed.

Lemma js_quote_json_string (s : string) : js_quote s = json_string s.
Proof.
  unfold js_quote, json_string. f_equal. f_equal.
  induction s as [|c r IH]; [reflexivity |].
  cbn [js_quote_units escape_body]. rewrite js_quote_unit_escape_char, IH. reflexivity.
Qed.

(** Every frame the page's Send Ping and Send 10 Pings buttons send, for
    any count [n] a JS number holds exactly, is accepted by the server as
    the ping with message Hello from browser #n and sequence [n]. *)
Theorem browser_frames_accepted (n : Z) :
  0 <= n <= 2 ^ 53 ->
  from_str_Ping (browser_ping_frame n) =
  Some (mkPing ("Hello from browser #" ++ js_number_to_string n) n).
Proof.
  intros Hn.
  assert (E : browser_ping_frame n =
              to_string_Ping (mkPing ("Hello from browser #" ++ js_number_to_string n) n)).
  { unfold browser_ping_frame, js_stringify_ping, to_string_Ping, json_key, js_number_to_string.
    rewrite !js_quote_json_string. cbn [Ping_message Ping_sequence].
    rewrite !string_app_assoc. reflexivity. }
  rewrite E. apply from_str_Ping_to_string. cbn [Ping_sequence]. unfold u64_max. lia.
Qed.

Lemma browser_frames_accepted_witness :
  0 <= 7 <= 2 ^ 53 /\
  from_str_Ping (browser_ping_frame 7) =
  Some (mkPing ("Hello from browser #" ++ js_number_to_string 7) 7).
Proof. split; [lia |]. apply browser_frames_accepted. lia. Defined.
